(** * argparse: the option matching-and-binding engine (argument.go)

    A shallow embedding of [arg.check], [arg.reduce], [arg.parse],
    [arg.name], [arg.usage] and [arg.setDefault], with the properties the
    specification states about them.

    Conventions.
    - Go's [string] is a byte sequence: [string] of [ascii].
    - Go's [int] is taken 64 bits wide; it is a [Z] and the additions the
      code performs are wrapped explicitly ([int_add]).
    - What the code calls outside the file (strconv, os, the owning
      command, the user's validator) is gathered in the [Platform] class;
      the operating system state is threaded explicitly as a [world].
    - [os.Exit] and a run-time panic do not return: functions that can
      reach them answer in [outcome]. *)

From Stdlib Require Import ZArith List String Ascii Bool Lia.
Import ListNotations.

Local Open Scope string_scope.
Local Open Scope Z_scope.

(** ** Machine integers *)

Module GoInt.

Definition max_int : Z := 9223372036854775807.
Definition min_int : Z := -9223372036854775808.

(** Two's complement wrap-around of a 64-bit signed integer. *)
Definition wrap (z : Z) : Z := (z - min_int) mod 2 ^ 64 + min_int.

Definition int_add (a b : Z) : Z := wrap (a + b).

Definition in_range (z : Z) : Prop := min_int <= z <= max_int.

End GoInt.
Export GoInt.

(** ** The [strings] package, on byte strings *)

Module Strings.

Definition dash : ascii := "-"%char.

(** [s[n:]] *)
Fixpoint slice_from (n : nat) (s : string) : string :=
  match n, s with
  | O, _ => s
  | S n', String _ t => slice_from n' t
  | S _, EmptyString => EmptyString
  end.

(** [strings.HasPrefix(s, p)] *)
Fixpoint HasPrefix (s p : string) {struct p} : bool :=
  match p with
  | EmptyString => true
  | String a p' =>
      match s with
      | EmptyString => false
      | String b s' => Ascii.eqb a b && HasPrefix s' p'
      end
  end.

(** [s[n] != c], for [n] known to be below [len(s)]. *)
Definition byte_differs (s : string) (n : nat) (c : ascii) : bool :=
  match String.get n s with
  | Some b => negb (Ascii.eqb b c)
  | None => false
  end.

(** Scan of [s] for non-overlapping instances of a non-empty [sub], from the
    left; [skip] bytes of an instance just found remain to be passed. *)
Fixpoint count_scan (sub s : string) (skip : nat) : nat :=
  match s with
  | EmptyString => O
  | String _ t =>
      match skip with
      | S k => count_scan sub t k
      | O => if HasPrefix s sub
             then S (count_scan sub t (Nat.pred (String.length sub)))
             else count_scan sub t O
      end
  end.

(** [strings.Count(s, sub)].  For the empty [sub] Go answers one more than
    the number of runes of [s]; the engine only calls it behind the guard
    that the short name is not empty, and the answer given here for that
    case is the one for single-byte text. *)
Definition Count (s sub : string) : Z :=
  match sub with
  | EmptyString => Z.of_nat (S (String.length s))
  | _ => Z.of_nat (count_scan sub s O)
  end.

(** [strings.Contains(s, sub)] *)
Fixpoint Contains (s sub : string) : bool :=
  HasPrefix s sub ||
  match s with
  | EmptyString => false
  | String _ t => Contains t sub
  end.

Fixpoint remove_scan (sub s : string) (skip : nat) : string :=
  match s with
  | EmptyString => EmptyString
  | String c t =>
      match skip with
      | S k => remove_scan sub t k
      | O => if HasPrefix s sub
             then remove_scan sub t (Nat.pred (String.length sub))
             else String c (remove_scan sub t O)
      end
  end.

(** [strings.Replace(s, old, new, -1)] with [new] the empty string: every
    non-overlapping instance of [old] removed; with [old] empty,
    [old == new] and [s] is returned. *)
Definition RemoveAll (s old : string) : string :=
  match old with
  | EmptyString => s
  | _ => remove_scan old s O
  end.

(** [strings.Join(l, sep)] *)
Definition Join (l : list string) (sep : string) : string := String.concat sep l.


End Strings.
Export Strings.

(** ** Results of calls that may not return *)

Inductive outcome (A : Type) : Type :=
| Return (a : A)                        (* normal return *)
| Exit (code : Z) (printed : string)    (* fmt.Print then os.Exit(code) *)
| Panic.                                (* run-time panic: index out of range *)

Arguments Return {A} a.
Arguments Exit {A} code printed.
Arguments Panic {A}.

(** ** Errors

    [fmt.Errorf] is kept unrendered, as its format and its operands; an
    error made by a collaborator (the operating system, the validator) is
    known by its message. *)

Inductive operand : Type :=
| VString (s : string)
| VStrings (l : list string)
| VTypeOf (go_type : string)            (* operand of a %T verb *)
| VPointer (go_type : string).          (* the result pointer itself *)

Inductive error : Type :=
| Errorf (format : string) (operands : list operand)
| Foreign (message : string).

(** [err.Error()], needed by the code only for foreign errors. *)
Definition Error (e : error) : string :=
  match e with
  | Foreign m => m
  | Errorf f _ => f
  end.

(** ** Collaborators *)

Class Platform : Type := {
  float64 : Type;
  File : Type;                          (* os.File *)
  world : Type;                         (* state of the operating system *)
  Command : Type;
  Atoi : string -> option Z;            (* strconv.Atoi; None on error *)
  ParseFloat : string -> option float64;(* strconv.ParseFloat(s, 64) *)
  OpenFile : string -> Z -> Z -> world -> (File + string) * world;
  Close : File -> world -> option string * world;
  CommandHelp : Command -> string       (* o.parent.Help(nil) *)
}.

(** ** Data model *)

Section Engine.

Context {P : Platform}.

(** The result pointer [o.result], by the cases of the type switches,
    together with the value it points to. *)
Inductive slot : Type :=
| RHelp                                 (* *help *)
| RBool (b : bool)                      (* *bool *)
| RInt (n : Z)                          (* *int *)
| RFloat (x : float64)                  (* *float64 *)
| RString (s : string)                  (* *string *)
| RFile (f : option File)               (* *os.File; None is the zero value *)
| RStringList (l : list string)         (* *[]string *)
| RIntList (l : list Z)                 (* *[]int *)
| RFloatList (l : list float64)         (* *[]float64 *)
| RFileList (l : list File)             (* *[]os.File *)
| ROther (go_type : string).            (* any other dynamic type *)

(** [o.opts.Default], an [interface{}], by dynamic type. *)
Inductive default_value : Type :=
| DBool (b : bool)
| DInt (n : Z)
| DFloat (x : float64)
| DString (s : string)
| DStrings (l : list string)
| DInts (l : list Z)
| DFloats (l : list float64)
| DOther (go_type : string).

(** The name [%T] prints for a default. *)
Definition type_of (d : default_value) : string :=
  match d with
  | DBool _ => "bool"
  | DInt _ => "int"
  | DFloat _ => "float64"
  | DString _ => "string"
  | DStrings _ => "[]string"
  | DInts _ => "[]int"
  | DFloats _ => "[]float64"
  | DOther t => t
  end.

(** [Options], as far as the engine reads it.  The validator is the user's
    function from the captured tokens to an error or nil; it is taken to
    touch nothing but its argument. *)
Record Options : Type := {
  Required : bool;
  Validate : option (list string -> option error);
  Help : string;
  Default : option default_value
}.

Record arg : Type := {
  result : slot;
  opts : option Options;
  sname : string;
  lname : string;
  size : Z;
  unique : bool;
  parsed : bool;
  fileFlag : Z;
  filePerm : Z;
  selector : option (list string);
  parent : Command
}.

Definition set_result (o : arg) (r : slot) : arg :=
  {| result := r; opts := opts o; sname := sname o; lname := lname o;
     size := size o; unique := unique o; parsed := parsed o;
     fileFlag := fileFlag o; filePerm := filePerm o;
     selector := selector o; parent := parent o |}.

Definition set_parsed (o : arg) (b : bool) : arg :=
  {| result := result o; opts := opts o; sname := sname o; lname := lname o;
     size := size o; unique := unique o; parsed := b;
     fileFlag := fileFlag o; filePerm := filePerm o;
     selector := selector o; parent := parent o |}.

(** A successful branch of [parse]: the value is stored, then
    [o.parsed = true]. *)
Definition bound (o : arg) (r : slot) : arg := set_parsed (set_result o r) true.

Definition nonempty (s : string) : bool := negb (s =? "")%string.

(** ** [arg.check] *)

(** The test shared by [check] and [reduce]: the long name is set, the
    argument is two dashes, then a byte other than a dash, and what
    follows the two dashes is the long name. *)
Definition long_match (o : arg) (argument : string) : bool :=
  nonempty (lname o)
  && (2 <? String.length argument)%nat
  && HasPrefix argument "--"
  && byte_differs argument 2 dash
  && (slice_from 2 argument =? lname o)%string.

(** The guard of the short-name block: the short name is set and the
    argument is one dash, then a byte other than a dash. *)
Definition short_form (o : arg) (argument : string) : bool :=
  nonempty (sname o)
  && (1 <? String.length argument)%nat
  && HasPrefix argument "-"
  && byte_differs argument 1 dash.

Definition check (o : arg) (argument : string) : outcome Z :=
  if (argument =? "-h")%string || (argument =? "--help")%string then
    Exit 0 (CommandHelp (parent o))
  else if long_match o argument then
    Return 1
  else if short_form o argument then
    if size o =? 1 then
      Return (Count (slice_from 1 argument) (sname o))
    else if (slice_from 1 argument =? sname o)%string then
      Return 1
    else
      Return 0
  else
    Return 0.

(** ** [arg.reduce] *)

(** [args[i] = v] through the pointer; out of range it panics ([None]). *)
Fixpoint store_nat (args : list string) (i : nat) (v : string)
  : option (list string) :=
  match args, i with
  | [], _ => None
  | _ :: t, O => Some (v :: t)
  | a :: t, S i' => option_map (cons a) (store_nat t i' v)
  end.

Definition store (args : list string) (i : Z) (v : string)
  : option (list string) :=
  if i <? 0 then None else store_nat args (Z.to_nat i) v.

(** [args[i]] through the pointer *)
Definition load (args : list string) (i : Z) : option string :=
  if i <? 0 then None else nth_error args (Z.to_nat i).

(** The loop [for i := position; i < position+o.size; i++] that stores the
    empty string at [i], with [steps] the number of turns left. *)
Fixpoint blank_loop (steps : nat) (i : Z) (args : list string)
  : outcome (list string) :=
  match steps with
  | O => Return args
  | S k =>
      match store args i "" with
      | None => Panic
      | Some args' => blank_loop k (i + 1) args'
      end
  end.

Definition blank (o : arg) (position : Z) (args : list string)
  : outcome (list string) :=
  blank_loop (Z.to_nat (int_add position (size o) - position)) position args.

Definition reduce (o : arg) (position : Z) (args : list string)
  : outcome (list string) :=
  match load args position with
  | None => Panic
  | Some argument =>
      let after_long :=
        if long_match o argument then blank o position args else Return args in
      match after_long with
      | Return args1 =>
          if short_form o argument then
            if size o =? 1 then
              if Contains (slice_from 1 argument) (sname o) then
                let replaced := RemoveAll argument (sname o) in
                match store args1 position
                        (if (replaced =? "-")%string then "" else replaced) with
                | Some args2 => Return args2
                | None => Panic
                end
              else Return args1
            else if (slice_from 1 argument =? sname o)%string then
              blank o position args1
            else Return args1
          else Return args1
      | Exit c t => Exit c t
      | Panic => Panic
      end
  end.

(** ** [arg.name] and [arg.usage] *)

Definition name (o : arg) : string :=
  if (lname o =? "")%string then "-" ++ sname o
  else if (sname o =? "")%string then "--" ++ lname o
  else "-" ++ sname o ++ "|" ++ "--" ++ lname o.

(** The double quote, byte 34. *)
Definition dquote : string := String (ascii_of_nat 34) EmptyString.

(** The Go literal for a space and the placeholder <value> between double
    quotes. *)
Definition value_hint : string := " " ++ dquote ++ "<value>" ++ dquote.

Definition usage (o : arg) : string :=
  let result0 := name o in
  let result1 :=
    match result o with
    | RBool _ => result0
    | RInt _ => result0 ++ " <integer>"
    | RFloat _ => result0 ++ " <float>"
    | RString _ =>
        match selector o with
        | Some sel => result0 ++ " (" ++ Join sel "|" ++ ")"
        | None => result0 ++ value_hint
        end
    | RFile _ => result0 ++ " <file>"
    | RStringList _ =>
        result0 ++ value_hint ++ " [" ++ result0 ++ value_hint ++ " ...]"
    | _ => result0
    end in
  match opts o with
  | None => "[" ++ result1 ++ "]"
  | Some op => if Required op then result1 else "[" ++ result1 ++ "]"
  end.

(** ** Releasing a list of files *)

(** The loop over the files of a list that closes each one and gathers
    the messages of the failures. *)
Fixpoint close_all (fs : list File) (errs : list string) (w : world)
  : list string * world :=
  match fs with
  | [] => (errs, w)
  | f :: rest =>
      match Close f w with
      | (Some m, w') => close_all rest (errs ++ [m])%list w'
      | (None, w') => close_all rest errs w'
      end
  end.

(** What follows a failed [os.OpenFile] in the file-list cases: the files
    of [held] are closed and the error is compounded when a close failed. *)
Definition rollback (held : list File) (msg : string) (w : world)
  : error * world :=
  let (errs, w') := close_all held [] w in
  (if (0 <? List.length errs)%nat
   then Errorf "while handling error: %v, other errors occured: %#v"
               [VString (Error (Foreign msg)); VStrings errs]
   else Foreign msg,
   w').

(** ** [arg.parse] *)

Definition reply : Type := option error * arg * world.

Definition duplicate (o : arg) (argCount : Z) : bool :=
  unique o && (parsed o || (1 <? argCount)).

Definition validation (o : arg) (args : list string) : option error :=
  match opts o with
  | Some op =>
      match Validate op with
      | Some validate => validate args
      | None => None
      end
  | None => None
  end.

Definition fail (format : string) (operands : list operand) (o : arg) (w : world)
  : outcome reply :=
  Return (Some (Errorf format operands), o, w).

Definition done (o : arg) (r : slot) (w : world) : outcome reply :=
  Return (None, bound o r, w).

Definition convert (o : arg) (args : list string) (argCount : Z) (w : world)
  : outcome reply :=
  match result o with
  | RHelp => Exit 0 (CommandHelp (parent o))
  | RBool _ => done o (RBool true) w
  | RInt n =>
      match args with
      | [] =>
          if 1 <? size o
          then fail "[%s] must be followed by an integer" [VString (name o)] o w
          else done o (RInt (int_add n argCount)) w
      | _ :: _ :: _ =>
          fail "[%s] followed by too many arguments" [VString (name o)] o w
      | [a] =>
          match Atoi a with
          | None => fail "[%s] bad interger value [%s]"
                         [VString (name o); VString a] o w
          | Some val => done o (RInt val) w
          end
      end
  | RFloat _ =>
      match args with
      | [] => fail "[%s] must be followed by a floating point number"
                   [VString (name o)] o w
      | _ :: _ :: _ =>
          fail "[%s] followed by too many arguments" [VString (name o)] o w
      | [a] =>
          match ParseFloat a with
          | None => fail "[%s] bad floating point value [%s]"
                         [VString (name o); VString a] o w
          | Some val => done o (RFloat val) w
          end
      end
  | RString _ =>
      match args with
      | [] => fail "[%s] must be followed by a string" [VString (name o)] o w
      | _ :: _ :: _ =>
          fail "[%s] followed by too many arguments" [VString (name o)] o w
      | [a] =>
          match selector o with
          | Some sel =>
              if existsb (String.eqb a) sel
              then done o (RString a) w
              else fail "bad value for [%s]. Allowed values are %v"
                        [VString (name o); VStrings sel] o w
          | None => done o (RString a) w
          end
      end
  | RFile _ =>
      match args with
      | [] => fail "[%s] must be followed by a path to file"
                   [VString (name o)] o w
      | _ :: _ :: _ =>
          fail "[%s] followed by too many arguments" [VString (name o)] o w
      | [a] =>
          match OpenFile a (fileFlag o) (filePerm o) w with
          | (inr msg, w') => Return (Some (Foreign msg), o, w')
          | (inl f, w') => done o (RFile (Some f)) w'
          end
      end
  | RStringList l =>
      match args with
      | [] => fail "[%s] must be followed by a string" [VString (name o)] o w
      | _ :: _ :: _ =>
          fail "[%s] followed by too many arguments" [VString (name o)] o w
      | [a] => done o (RStringList (l ++ [a])%list) w
      end
  | RIntList l =>
      match args with
      | [] => fail "[%s] must be followed by a string representation of integer"
                   [VString (name o)] o w
      | _ :: _ :: _ =>
          fail "[%s] followed by too many arguments" [VString (name o)] o w
      | [a] =>
          match Atoi a with
          | None => fail "[%s] bad interger value [%s]"
                         [VString (name o); VString a] o w
          | Some val => done o (RIntList (l ++ [val])%list) w
          end
      end
  | RFloatList l =>
      match args with
      | [] => fail "[%s] must be followed by a string representation of integer"
                   [VString (name o)] o w
      | _ :: _ :: _ =>
          fail "[%s] followed by too many arguments" [VString (name o)] o w
      | [a] =>
          match ParseFloat a with
          | None => fail "[%s] bad floating point value [%s]"
                         [VString (name o); VString a] o w
          | Some val => done o (RFloatList (l ++ [val])%list) w
          end
      end
  | RFileList l =>
      match args with
      | [] => fail "[%s] must be followed by a path to file"
                   [VString (name o)] o w
      | _ :: _ :: _ =>
          fail "[%s] followed by too many arguments" [VString (name o)] o w
      | [a] =>
          match OpenFile a (fileFlag o) (filePerm o) w with
          | (inr msg, w') =>
              let (err, w'') := rollback l msg w' in
              Return (Some err, set_result o (RFileList []), w'')
          | (inl f, w') => done o (RFileList (l ++ [f])%list) w'
          end
      end
  | ROther t => fail "unsupported type [%t]" [VPointer t] o w
  end.

Definition parse (o : arg) (args : list string) (argCount : Z) (w : world)
  : outcome reply :=
  if duplicate o argCount then
    fail "[%s] can only be present once" [VString (name o)] o w
  else
    match validation o args with
    | Some err => Return (Some err, o, w)
    | None => convert o args argCount w
    end.

(** ** [arg.setDefault] *)

Definition mismatch (d : default_value) (wanted : string) (o : arg) (w : world)
  : reply :=
  (Some (Errorf ("cannot use default type [%T] as type [" ++ wanted ++ "]")
                [VTypeOf (type_of d)]),
   o, w).

(** The loop of the file-list case over the names of the default:
    [files] are the files opened so far by the loop, [held] is the list the
    result pointer holds, which is the one the code closes on a failure. *)
Fixpoint open_defaults (o : arg) (held : list File) (fileNames : list string)
                       (files : list File) (w : world)
  : (error * world) + (list File * world) :=
  match fileNames with
  | [] => inr (files, w)
  | v :: rest =>
      match OpenFile v (fileFlag o) (filePerm o) w with
      | (inr msg, w') => inl (rollback held msg w')
      | (inl f, w') => open_defaults o held rest (files ++ [f])%list w'
      end
  end.

Definition apply_default (o : arg) (d : default_value) (w : world) : reply :=
  match result o with
  | RBool _ =>
      match d with
      | DBool b => (None, set_result o (RBool b), w)
      | _ => mismatch d "bool" o w
      end
  | RInt _ =>
      match d with
      | DInt n => (None, set_result o (RInt n), w)
      | _ => mismatch d "int" o w
      end
  | RFloat _ =>
      match d with
      | DFloat x => (None, set_result o (RFloat x), w)
      | _ => mismatch d "float64" o w
      end
  | RString _ =>
      match d with
      | DString s => (None, set_result o (RString s), w)
      | _ => mismatch d "string" o w
      end
  | RFile _ =>
      match d with
      | DString v =>
          match OpenFile v (fileFlag o) (filePerm o) w with
          | (inr msg, w') => (Some (Foreign msg), o, w')
          | (inl f, w') => (None, set_result o (RFile (Some f)), w')
          end
      | _ => mismatch d "string" o w
      end
  | RStringList _ =>
      match d with
      | DStrings l => (None, set_result o (RStringList l), w)
      | _ => mismatch d "[]string" o w
      end
  | RIntList _ =>
      match d with
      | DInts l => (None, set_result o (RIntList l), w)
      | _ => mismatch d "[]int" o w
      end
  | RFloatList _ =>
      match d with
      | DFloats l => (None, set_result o (RFloatList l), w)
      | _ => mismatch d "[]float64" o w
      end
  | RFileList held =>
      match d with
      | DStrings fileNames =>
          match open_defaults o held fileNames [] w with
          | inl (err, w') => (Some err, set_result o (RFileList []), w')
          | inr (files, w') => (None, set_result o (RFileList files), w')
          end
      | _ => mismatch d "[]string" o w
      end
  | RHelp | ROther _ => (None, o, w)
  end.

Definition setDefault (o : arg) (w : world) : reply :=
  if parsed o then (None, o, w)
  else
    match opts o with
    | None => (None, o, w)
    | Some op =>
        match Default op with
        | None => (None, o, w)
        | Some d => apply_default o d w
        end
    end.

End Engine.

(** ** A small operating system, for running the engine on examples

    Files are descriptors; a file opens when its name is present; closing a
    descriptor that is not open fails, as it does after a first close. *)

Module Demo.

Record os_state : Type := {
  present : list string;                (* the names that can be opened *)
  opened : list nat;                    (* the descriptors now open *)
  next_fd : nat
}.

Definition open_file (path : string) (flag perm : Z) (w : os_state)
  : (nat + string) * os_state :=
  if existsb (String.eqb path) (present w) then
    (inl (next_fd w),
     {| present := present w;
        opened := (opened w ++ [next_fd w])%list;
        next_fd := S (next_fd w) |})
  else
    (inr ("open " ++ path ++ ": no such file or directory"), w).

Definition close_file (fd : nat) (w : os_state) : option string * os_state :=
  if existsb (Nat.eqb fd) (opened w) then
    (None,
     {| present := present w;
        opened := filter (fun d => negb (Nat.eqb fd d)) (opened w);
        next_fd := next_fd w |})
  else
    (Some "close: file already closed", w).

Fixpoint digits (s : string) (acc : Z) : option Z :=
  match s with
  | EmptyString => Some acc
  | String c t =>
      let n := Z.of_nat (nat_of_ascii c) in
      if (48 <=? n) && (n <=? 57) then digits t (10 * acc + (n - 48)) else None
  end.

(** Decimal numerals with an optional sign, within the range of [int]. *)
Definition atoi (s : string) : option Z :=
  let signed :=
    match s with
    | EmptyString => None
    | String c t =>
        if Ascii.eqb c "-" then
          match t with EmptyString => None | _ => option_map Z.opp (digits t 0) end
        else if Ascii.eqb c "+" then
          match t with EmptyString => None | _ => digits t 0 end
        else digits s 0
    end in
  match signed with
  | Some z => if (min_int <=? z) && (z <=? max_int) then Some z else None
  | None => None
  end.

(** The command is known by the help text it renders; floats are left out
    (no numeral is accepted). *)
Definition platform : Platform := {|
  float64 := unit;
  File := nat;
  world := os_state;
  Command := string;
  Atoi := atoi;
  ParseFloat := fun _ => None;
  OpenFile := open_file;
  Close := close_file;
  CommandHelp := fun text => text
|}.

Definition fresh (names : list string) : os_state :=
  {| present := names; opened := []; next_fd := O |}.

(** An option over [platform] with nothing set but its names, size and
    result. *)
Definition option_of (short long : string) (sz : Z) (r : @slot platform)
  : @arg platform :=
  {| result := r; opts := None; sname := short; lname := long; size := sz;
     unique := false; parsed := false; fileFlag := 0; filePerm := 0;
     selector := None; parent := "usage: demo" |}.

Definition with_opts (o : @arg platform) (op : @Options platform)
  : @arg platform :=
  {| result := result o; opts := Some op; sname := sname o; lname := lname o;
     size := size o; unique := unique o; parsed := parsed o;
     fileFlag := fileFlag o; filePerm := filePerm o;
     selector := selector o; parent := parent o |}.

Definition with_unique (o : @arg platform) : @arg platform :=
  {| result := result o; opts := opts o; sname := sname o; lname := lname o;
     size := size o; unique := true; parsed := parsed o;
     fileFlag := fileFlag o; filePerm := filePerm o;
     selector := selector o; parent := parent o |}.

Definition options_of (required : bool)
                      (validate : option (list string -> option error))
                      (default : option (@default_value platform))
  : @Options platform :=
  {| Required := required; Validate := validate; Help := "";
     Default := default |}.

End Demo.

(** ** Vocabulary of the specification *)

Section Statements.

Context {P : Platform}.

(** Number of value tokens an occurrence takes: [size] counts the matched
    token too ([check] treats size 1 as the flags and counters). *)
Definition arity (o : arg) : Z := size o - 1.

(** The token is matched as a whole: by the long name, or by the short name
    of an option that is not combinable. *)
Definition whole_token_match (o : arg) (argument : string) : bool :=
  long_match o argument
  || (negb (size o =? 1) && short_form o argument
      && (slice_from 1 argument =? sname o)%string).

(** [args'] is [args] with the positions [first] to [last], both included,
    holding the empty string, and every other position as it was. *)
Definition blanks_range (args args' : list string) (first last : Z) : Prop :=
  List.length args' = List.length args /\
  forall i : Z,
    0 <= i < Z.of_nat (List.length args) ->
    load args' i =
      if (first <=? i) && (i <=? last) then Some "" else load args i.

Definition consume_blanks_through (o : arg) (position : Z)
                                  (args : list string) (last : Z) : Prop :=
  exists args', reduce o position args = Return args' /\
                blanks_range args args' position last.

(** The world after [Close] was called on each file of the list, in order. *)
Definition released (held : list File) (w : world) : world :=
  fold_left (fun w' f => snd (Close f w')) held w.

(** The messages of the calls of [Close] that failed, in order. *)
Fixpoint release_failures (held : list File) (w : world) : list string :=
  match held with
  | [] => []
  | f :: rest =>
      match fst (Close f w) with
      | Some m => m :: release_failures rest (snd (Close f w))
      | None => release_failures rest (snd (Close f w))
      end
  end.

(** The error of a failed open, alone or with the release failures. *)
Definition open_failure (msg : string) (failures : list string) : error :=
  match failures with
  | [] => Foreign msg
  | _ => Errorf "while handling error: %v, other errors occured: %#v"
                [VString msg; VStrings failures]
  end.

(** The default has the dynamic type the slot asks for. *)
Definition fits (r : slot) (d : default_value) : bool :=
  match r, d with
  | RBool _, DBool _ | RInt _, DInt _ | RFloat _, DFloat _
  | RString _, DString _ | RFile _, DString _
  | RStringList _, DStrings _ | RIntList _, DInts _
  | RFloatList _, DFloats _ | RFileList _, DStrings _ => true
  | _, _ => false
  end.

Definition default_type_for (r : slot) : option string :=
  match r with
  | RBool _ => Some "bool"
  | RInt _ => Some "int"
  | RFloat _ => Some "float64"
  | RString _ | RFile _ => Some "string"
  | RStringList _ | RFileList _ => Some "[]string"
  | RIntList _ => Some "[]int"
  | RFloatList _ => Some "[]float64"
  | RHelp | ROther _ => None
  end.

(** The slot's type is one both type switches have a case for. *)
Definition supported (r : slot) : bool :=
  match r with
  | RHelp | ROther _ => false
  | _ => true
  end.

(** Binding answers with an error. *)
Definition bind_fails (o : arg) (args : list string) (argCount : Z) (w : world)
  : Prop :=
  exists e o' w', parse o args argCount w = Return (Some e, o', w').

(** Default application answers with an error. *)
Definition default_fails (o : arg) (w : world) : Prop :=
  exists e o' w', setDefault o w = (Some e, o', w').



End Statements.

(** ** Options and states the examples run on *)

Module Examples.

Import Demo.

(** The counter [-v|--verbose], holding 4. *)
Definition verbosity : @arg platform := option_of "v" "verbose" 1 (RInt 4).

(** The integer option [-n|--number]. *)
Definition number : @arg platform := option_of "n" "number" 2 (RInt 0).

Definition number_required : @arg platform :=
  with_opts number (options_of true None None).

Definition number_optional : @arg platform :=
  with_opts number (options_of false None None).

(** The flag [-f|--force]. *)
Definition force : @arg platform := option_of "f" "force" 1 (RBool false).


(** A counter that may be present once only. *)
Definition counter_once : @arg platform :=
  with_unique (option_of "v" "" 1 (RInt 0)).




(** A file list holding descriptors 0 and 7, of which only 0 is open. *)
Definition inputs : @arg platform :=
  option_of "i" "input" 2 (@RFileList platform [0%nat; 7%nat]).

Definition one_open : os_state :=
  {| present := []; opened := [0%nat]; next_fd := 1 |}.

(** An empty file list whose default names two files. *)
Definition two_defaults : @arg platform :=
  with_opts (option_of "i" "input" 2 (@RFileList platform []))
            (options_of false None (Some (DStrings ["a"; "b"]))).

(** A slot of a type outside the type switches, with a default. *)
Definition odd_slot : @arg platform :=
  with_opts (option_of "x" "" 2 (ROther "*uint"))
            (options_of false None (Some (DInt 5))).

(** A matched flag whose default is not a boolean. *)
Definition matched_flag : @arg platform :=
  set_parsed (with_opts force (options_of false None (Some (DString "yes"))))
             true.

Definition unmatched_flag : @arg platform :=
  with_opts force (options_of false None (Some (DString "yes"))).

End Examples.

(** ** [arg.getHelpMessage] *)

Section HelpMessage.

Context {P : Platform}.

(** What the verb %v prints for the default, which is a matter of the fmt
    package. *)
Variable Sprint : default_value -> string.

(** [o.opts] is read without a nil test: on an option without options the
    call panics. *)
Definition getHelpMessage (o : arg) : outcome string :=
  match opts o with
  | None => Panic
  | Some op =>
      if (0 <? String.length (Help op))%nat then
        match negb (Required op), Default op with
        | true, Some d => Return (Help op ++ ". Default: " ++ Sprint d)
        | _, _ => Return (Help op)
        end
      else Return ""
  end.

End HelpMessage.

(** ** More vocabulary *)

Section Vocabulary.

Context {P : Platform}.

(** Number of bytes of [s] equal to [c]. *)
Fixpoint occurrences (c : ascii) (s : string) : nat :=
  match s with
  | EmptyString => O
  | String a t => if Ascii.eqb c a then S (occurrences c t) else occurrences c t
  end.

(** [s] with the bytes equal to [c] left out, the others in order. *)
Fixpoint without (c : ascii) (s : string) : string :=
  match s with
  | EmptyString => EmptyString
  | String a t => if Ascii.eqb c a then without c t else String a (without c t)
  end.

(** No byte of [s] is a dash. *)
Fixpoint dash_free (s : string) : bool :=
  match s with
  | EmptyString => true
  | String a t => negb (Ascii.eqb a dash) && dash_free t
  end.

(** A token of combined flags after the flag [c] was taken out of its body:
    blank when no other flag is left. *)
Definition flags_left (c : ascii) (body : string) : string :=
  match without c body with
  | EmptyString => EmptyString
  | kept => "-" ++ kept
  end.

(** The fields of an option a parse pass never writes. *)
Definition same_identity (o o' : arg) : Prop :=
  opts o' = opts o /\ sname o' = sname o /\ lname o' = lname o /\
  size o' = size o /\ unique o' = unique o /\
  fileFlag o' = fileFlag o /\ filePerm o' = filePerm o /\
  selector o' = selector o /\ parent o' = parent o.

(** The two slots have the same dynamic type. *)
Definition same_kind (r r' : slot) : bool :=
  match r, r' with
  | RHelp, RHelp | RBool _, RBool _ | RInt _, RInt _ | RFloat _, RFloat _
  | RString _, RString _ | RFile _, RFile _
  | RStringList _, RStringList _ | RIntList _, RIntList _
  | RFloatList _, RFloatList _ | RFileList _, RFileList _ => true
  | ROther t, ROther t' => (t =? t')%string
  | _, _ => false
  end.

(** The slot is a file or a list of files. *)
Definition holds_files (r : slot) : bool :=
  match r with
  | RFile _ | RFileList _ => true
  | _ => false
  end.

(** The slot is a list. *)
Definition is_list (r : slot) : bool :=
  match r with
  | RStringList _ | RIntList _ | RFloatList _ | RFileList _ => true
  | _ => false
  end.

(** The conversion of the slot's type reads one captured token. *)
Definition takes_value (r : slot) : bool :=
  match r with
  | RInt _ | RFloat _ | RString _ | RFile _
  | RStringList _ | RIntList _ | RFloatList _ | RFileList _ => true
  | _ => false
  end.

(** [r'] is the list [r] with one element added at its end. *)
Definition extended_by_one (r r' : slot) : Prop :=
  match r, r' with
  | RStringList l, RStringList l' => exists x, l' = (l ++ [x])%list
  | RIntList l, RIntList l' => exists x, l' = (l ++ [x])%list
  | RFloatList l, RFloatList l' => exists x, l' = (l ++ [x])%list
  | RFileList l, RFileList l' => exists x, l' = (l ++ [x])%list
  | _, _ => False
  end.

(** The names opened one after the other, each in the world the one before
    left; [None] as soon as one does not open. *)
Fixpoint opens_in_order (o : arg) (fileNames : list string) (w : world)
  : option (list File * world) :=
  match fileNames with
  | [] => Some ([], w)
  | v :: rest =>
      match OpenFile v (fileFlag o) (filePerm o) w with
      | (inl f, w') =>
          match opens_in_order o rest w' with
          | Some (fs, w'') => Some (f :: fs, w'')
          | None => None
          end
      | (inr _, _) => None
      end
  end.

(** The option with its options replaced. *)
Definition set_opts (o : arg) (op : option Options) : arg :=
  {| result := result o; opts := op; sname := sname o; lname := lname o;
     size := size o; unique := unique o; parsed := parsed o;
     fileFlag := fileFlag o; filePerm := filePerm o;
     selector := selector o; parent := parent o |}.

(** The options with the required mark set. *)
Definition required_options (op : option Options) : Options :=
  match op with
  | Some p => {| Required := true; Validate := Validate p; Help := Help p;
                 Default := Default p |}
  | None => {| Required := true; Validate := None; Help := EmptyString;
               Default := None |}
  end.

(** The option declared required, all else equal. *)
Definition as_required (o : arg) : arg :=
  set_opts o (Some (required_options (opts o))).

(** The option is declared required. *)
Definition is_required (o : arg) : bool :=
  match opts o with
  | Some op => Required op
  | None => false
  end.

(** The slot holds the value of the default. *)
Definition holds_default (r : slot) (d : default_value) : Prop :=
  match r, d with
  | RBool b, DBool b' => b = b'
  | RInt n, DInt n' => n = n'
  | RFloat x, DFloat x' => x = x'
  | RString s, DString s' => s = s'
  | RStringList l, DStrings l' => l = l'
  | RIntList l, DInts l' => l = l'
  | RFloatList l, DFloats l' => l = l'
  | _, _ => False
  end.

End Vocabulary.

(** ** More options for the examples *)

Module MoreExamples.

Import Demo.

(** The flag [-x], combinable with [-v]. *)
Definition extra : @arg platform := option_of "x" "" 1 (RBool false).

(** The string option [--color] with three allowed values. *)
Definition with_selector (o : @arg platform) (allowed : list string)
  : @arg platform :=
  {| result := result o; opts := opts o; sname := sname o; lname := lname o;
     size := size o; unique := unique o; parsed := parsed o;
     fileFlag := fileFlag o; filePerm := filePerm o;
     selector := Some allowed; parent := parent o |}.

Definition color : @arg platform :=
  with_selector (option_of "" "color" 2 (RString "auto"))
                ["auto"; "always"; "never"].

(** The list option [-I|--include], holding one path. *)
Definition include : @arg platform :=
  option_of "I" "include" 2 (RStringList ["lib"]).

(** The integer option [--level] with the default 3. *)
Definition level : @arg platform :=
  with_opts (option_of "" "level" 2 (RInt 0))
            (options_of false None (Some (DInt 3))).

(** A file list whose default names two files. *)
Definition sources : @arg platform :=
  with_opts (option_of "s" "source" 2 (@RFileList platform []))
            (options_of false None (Some (DStrings ["a"; "b"]))).

(** An option with a help text and a default. *)
Definition documented : @arg platform :=
  with_opts (option_of "" "level" 2 (RInt 0))
            (@Build_Options platform false None "verbosity level"
                            (Some (DInt 3))).

(** What %v prints, for the defaults the examples use. *)
Definition sprint (d : @default_value platform) : string :=
  match d with
  | DInt 3 => "3"
  | DString s => s
  | DBool true => "true"
  | DBool false => "false"
  | _ => "?"
  end.

End MoreExamples.


(** * Properties *)

(** Case analysis on the innermost scrutinee first. *)
Ltac split_matches :=
  repeat match goal with
         | |- context [match ?x with _ => _ end] =>
             lazymatch x with
             | context [match _ with _ => _ end] => fail
             | _ => destruct x eqn:?
             end
         end.

(** ** Machine integers and strings *)

Lemma wrap_in_range (z : Z) : in_range z -> wrap z = z.
Proof.
  unfold in_range, wrap, min_int, max_int. intros H.
  rewrite Z.mod_small; lia.
Qed.

Lemma HasPrefix_app (p rest : string) : HasPrefix (p ++ rest) p = true.
Proof.
  induction p as [|a p IH]; [reflexivity|].
  cbn [HasPrefix append]. now rewrite Ascii.eqb_refl, IH.
Qed.



Lemma two_dashes_second_byte (s : string) :
  HasPrefix s "--" = true -> byte_differs s 1 dash = false.
Proof.
  unfold byte_differs.
  destruct s as [|c1 [|c2 t]]; cbn [HasPrefix get]; intros Hp; trivial.
  apply andb_true_iff in Hp. destruct Hp as [_ Hp].
  apply andb_true_iff in Hp. destruct Hp as [Hp _].
  apply Ascii.eqb_eq in Hp. subst c2. reflexivity.
Qed.

(** ** Stores and loads of the token sequence *)

Lemma store_nat_spec (args : list string) (i : nat) (v : string) :
  (i < List.length args)%nat ->
  exists args',
    store_nat args i v = Some args' /\
    List.length args' = List.length args /\
    forall j, nth_error args' j =
              if (j =? i)%nat then Some v else nth_error args j.
Proof.
  revert i. induction args as [|a t IH]; intros i Hi; simpl in Hi; [lia|].
  destruct i as [|i].
  - exists (v :: t). repeat split. intros [|j]; reflexivity.
  - destruct (IH i ltac:(lia)) as [t' [Hs [Hl Hn]]].
    exists (a :: t'). simpl. rewrite Hs. repeat split.
    + simpl. now rewrite Hl.
    + intros [|j]; [reflexivity|]. simpl. apply Hn.
Qed.

Lemma store_spec (args : list string) (i : Z) (v : string) :
  0 <= i < Z.of_nat (List.length args) ->
  exists args',
    store args i v = Some args' /\
    List.length args' = List.length args /\
    forall j, 0 <= j ->
              load args' j = if j =? i then Some v else load args j.
Proof.
  intros Hi.
  destruct (store_nat_spec args (Z.to_nat i) v ltac:(lia)) as [args' [Hs [Hl Hn]]].
  exists args'. unfold store, load.
  destruct (Z.ltb_spec i 0); [lia|]. repeat split; trivial.
  intros j Hj. destruct (Z.ltb_spec j 0); [lia|]. rewrite Hn.
  destruct (Nat.eqb_spec (Z.to_nat j) (Z.to_nat i)), (Z.eqb_spec j i);
    trivial; lia.
Qed.

Lemma blank_loop_spec (steps : nat) :
  forall (i : Z) (args : list string),
    0 <= i -> i + Z.of_nat steps <= Z.of_nat (List.length args) ->
    exists args',
      blank_loop steps i args = Return args' /\
      List.length args' = List.length args /\
      forall j, 0 <= j ->
                load args' j =
                  if (i <=? j) && (j <? i + Z.of_nat steps)
                  then Some "" else load args j.
Proof.
  induction steps as [|k IH]; intros i args Hi Hlen.
  - exists args. repeat split. intros j Hj.
    destruct (Z.leb_spec i j), (Z.ltb_spec j (i + Z.of_nat 0)); trivial; lia.
  - destruct (store_spec args i "" ltac:(lia)) as [args1 [Hs [Hl1 Hn1]]].
    destruct (IH (i + 1) args1 ltac:(lia) ltac:(lia)) as [args' [Hb [Hl Hn]]].
    exists args'. simpl blank_loop. rewrite Hs. repeat split; trivial.
    + congruence.
    + intros j Hj. rewrite (Hn j Hj), (Hn1 j Hj).
      destruct (Z.leb_spec (i + 1) j), (Z.ltb_spec j (i + 1 + Z.of_nat k)),
               (Z.leb_spec i j), (Z.ltb_spec j (i + Z.of_nat (S k))),
               (Z.eqb_spec j i); simpl; trivial; lia.
Qed.

Lemma load_in_range (args : list string) (i : Z) (a : string) :
  load args i = Some a -> 0 <= i < Z.of_nat (List.length args).
Proof.
  unfold load. destruct (Z.ltb_spec i 0) as [|Hi]; [discriminate|]. intros Hl.
  assert (Hn : nth_error args (Z.to_nat i) <> None) by congruence.
  apply nth_error_Some in Hn. lia.
Qed.

(** ** Matcher *)

Section Matcher.

Context {P : Platform}.


End Matcher.



(** ** Consumer *)

Section Consumer.

Context {P : Platform}.

Lemma long_excludes_short (o : arg) (argument : string) :
  long_match o argument = true -> short_form o argument = false.
Proof.
  unfold long_match, short_form. intros H.
  apply andb_true_iff in H. destruct H as [H _].
  apply andb_true_iff in H. destruct H as [H _].
  apply andb_true_iff in H. destruct H as [_ Hpre].
  rewrite (two_dashes_second_byte _ Hpre). apply andb_false_r.
Qed.

Lemma short_excludes_long (o : arg) (argument : string) :
  short_form o argument = true -> long_match o argument = false.
Proof.
  intros H. destruct (long_match o argument) eqn:Hl; trivial.
  apply long_excludes_short in Hl. congruence.
Qed.

Lemma blank_spec (o : arg) (position : Z) (args : list string) :
  0 <= position -> 0 <= arity o ->
  position + arity o < Z.of_nat (List.length args) ->
  Z.of_nat (List.length args) <= max_int ->
  exists args', blank o position args = Return args' /\
                blanks_range args args' position (position + arity o).
Proof.
  unfold arity. intros Hp Ha Hlen Hmax. unfold blank, int_add.
  rewrite wrap_in_range by (unfold in_range, min_int, max_int in *; lia).
  destruct (blank_loop_spec (Z.to_nat (position + size o - position))
              position args Hp ltac:(lia)) as [args' [Hb [Hl Hn]]].
  exists args'. split; [exact Hb|]. split; [exact Hl|].
  intros i Hi. rewrite Hn by lia.
  destruct (Z.leb_spec position i),
           (Z.ltb_spec i (position + Z.of_nat (Z.to_nat (position + size o - position)))),
           (Z.leb_spec i (position + (size o - 1))); simpl; trivial; lia.
Qed.

(** C3 (as amended).  When the token at [position] is matched by the long
    name, or by the short name of an option that is not combinable, and the
    match token and its value tokens lie within the sequence, [reduce]
    stores the empty string at every position from [position] through
    [position + arity], both included (the match token and its [arity]
    value tokens, [size] tokens in all), and leaves every other token as it
    was. *)
Theorem reduce_blanks_match_and_values
  (o : arg) (position : Z) (args : list string) (argument : string) :
  load args position = Some argument ->
  whole_token_match o argument = true ->
  0 <= arity o ->
  position + arity o < Z.of_nat (List.length args) ->
  Z.of_nat (List.length args) <= max_int ->
  consume_blanks_through o position args (position + arity o).
Proof.
  intros Hload Hm Ha Hlen Hmax.
  pose proof (load_in_range _ _ _ Hload) as Hpos.
  destruct (blank_spec o position args ltac:(lia) Ha Hlen Hmax)
    as [args' [Hb Hr]].
  exists args'. split; [|exact Hr].
  unfold reduce. rewrite Hload.
  unfold whole_token_match in Hm. apply orb_true_iff in Hm.
  destruct Hm as [Hl | Hs].
  - rewrite Hl, Hb, (long_excludes_short _ _ Hl). reflexivity.
  - apply andb_true_iff in Hs. destruct Hs as [Hs He].
    apply andb_true_iff in Hs. destruct Hs as [Hz Hs].
    rewrite (short_excludes_long _ _ Hs), Hs, He.
    apply negb_true_iff in Hz. now rewrite Hz.
Qed.

End Consumer.

(** In [a -n 5 x], consuming [-n] at position 1 blanks positions 1 and 2. *)
Lemma reduce_blanks_match_and_values_witness :
  reduce Examples.number 1 ["a"; "-n"; "5"; "x"] = Return ["a"; ""; ""; "x"] /\
  consume_blanks_through Examples.number 1 ["a"; "-n"; "5"; "x"] 2.
Proof.
  split; [reflexivity|].
  apply (reduce_blanks_match_and_values (P := Demo.platform)
           Examples.number 1 ["a"; "-n"; "5"; "x"] "-n");
    [reflexivity | reflexivity | unfold arity; simpl; lia
    | unfold arity; simpl; lia | unfold max_int; simpl; lia].
Defined.

(** C3 as stated fails on the code: with the range ending at
    [position + arity - 1], the value token of [--number 5] would stay and
    the long-name match of a flag would blank nothing, whereas [reduce]
    blanks the value token and the flag. *)
Lemma reduce_claimed_range_fails :
  ~ consume_blanks_through Examples.number 0 ["--number"; "5"; "x"]
      (0 + arity Examples.number - 1) /\
  ~ consume_blanks_through Examples.force 0 ["--force"; "x"]
      (0 + arity Examples.force - 1).
Proof.
  split; intros [args' [Hred [_ Hrange]]];
    vm_compute in Hred; injection Hred as <-.
  - specialize (Hrange 1 ltac:(simpl; lia)). vm_compute in Hrange.
    discriminate Hrange.
  - specialize (Hrange 0 ltac:(simpl; lia)). vm_compute in Hrange.
    discriminate Hrange.
Qed.

(** ** Binder *)

Section Binder.

Context {P : Platform}.

Lemma duplicate_true (o : arg) (argCount : Z) :
  unique o = true -> parsed o = true \/ 1 < argCount ->
  duplicate o argCount = true.
Proof.
  intros Hu [Hp | Hc]; unfold duplicate; rewrite Hu; simpl.
  - now rewrite Hp.
  - apply orb_true_iff. right. now apply Z.ltb_lt.
Qed.

(** C7.  For a unique option, whenever it is already matched or the
    occurrence count exceeds 1, [parse] returns the error that the option,
    named by [name], can only be present once; this holds whatever the
    validator, the slot type and the captured tokens are, and the option and
    the world are left as they were: the test comes before validation and
    conversion. *)
Theorem parse_rejects_duplicate
  (o : arg) (args : list string) (argCount : Z) (w : world) :
  unique o = true ->
  parsed o = true \/ 1 < argCount ->
  parse o args argCount w =
    Return (Some (Errorf "[%s] can only be present once" [VString (name o)]),
            o, w).
Proof.
  intros Hu Hd. unfold parse. now rewrite (duplicate_true o argCount Hu Hd).
Qed.

(** C10.  [parse] returns unless the slot is the help slot (then the
    process exits); when it returns an error the matched flag is the one
    from before the call; when it returns no error the flag is set; a flag
    that was set stays set, and a flag that is set afterwards was set before
    or the binding succeeded. *)
Theorem parse_matched_flag
  (o : arg) (args : list string) (argCount : Z) (w : world) :
  match parse o args argCount w with
  | Return (err, o', _) =>
      (err <> None -> parsed o' = parsed o) /\
      (err = None -> parsed o' = true) /\
      (parsed o = true -> parsed o' = true) /\
      (parsed o' = true -> parsed o = true \/ err = None)
  | Exit _ _ => result o = RHelp
  | Panic => False
  end.
Proof.
  unfold parse, convert, fail, done, rollback.
  destruct (duplicate o argCount); [simpl; intuition congruence|].
  destruct (validation o args); [simpl; intuition congruence|].
  destruct (result o); try reflexivity;
    destruct args as [|tok [|tok2 more]]; split_matches; simpl;
    intuition congruence.
Qed.

(** C4 (as amended).  For a boolean slot, once the uniqueness test and the
    validator let the binding through, [parse] ignores the captured tokens:
    for every list of tokens, empty or not, it returns no error, sets the
    slot to true and marks the option matched. *)
Theorem parse_bool_ignores_tokens
  (o : arg) (b : bool) (args : list string) (argCount : Z) (w : world) :
  result o = RBool b ->
  duplicate o argCount = false ->
  validation o args = None ->
  parse o args argCount w = Return (None, bound o (RBool true), w).
Proof.
  intros Hr Hd Hv. unfold parse, convert. now rewrite Hd, Hv, Hr.
Qed.

Lemma close_all_unfolds (held : list File) (errs : list string) (w : world) :
  close_all held errs w =
    ((errs ++ release_failures held w)%list, released held w).
Proof.
  revert errs w. induction held as [|f rest IH]; intros errs w; simpl.
  - now rewrite app_nil_r.
  - unfold released. simpl. destruct (Close f w) as [[m|] w1]; simpl.
    + rewrite IH. now rewrite <- app_assoc.
    + now rewrite IH.
Qed.

Lemma rollback_unfolds (held : list File) (msg : string) (w : world) :
  rollback held msg w =
    (open_failure msg (release_failures held w), released held w).
Proof.
  unfold rollback. rewrite close_all_unfolds. simpl.
  now destruct (release_failures held w).
Qed.

(** When a file closed by [Close] is closed afterwards and stays closed
    through later calls, every file of a released list is closed. *)
Lemma released_all_closed (closed : File -> world -> Prop) :
  (forall f w, closed f (snd (Close f w))) ->
  (forall f g w, closed g w -> closed g (snd (Close f w))) ->
  forall held w f, In f held -> closed f (released held w).
Proof.
  intros Hclose Hkeep.
  assert (Hstay : forall held w g, closed g w -> closed g (released held w)).
  { induction held as [|f rest IH]; intros w g Hg; [exact Hg|].
    unfold released. simpl. apply IH. now apply Hkeep. }
  induction held as [|f rest IH]; intros w g Hin; [contradiction|].
  unfold released. simpl. destruct Hin as [-> | Hin].
  - apply Hstay. apply Hclose.
  - now apply IH.
Qed.

(** C1.  For a file-list slot holding [held], when [parse] is given one
    token, gets past the uniqueness test and the validator, and opening the
    token fails with [msg]: [Close] is called on every file of [held], in
    order; the slot is reset to the empty list and the matched flag is
    unchanged; and the error returned is the open failure alone when every
    close succeeded, and otherwise the compound error that carries the open
    failure and the messages of the closes that failed. *)
Theorem parse_file_list_open_failure
  (o : arg) (held : list File) (token : string) (argCount : Z)
  (w w' : world) (msg : string) :
  result o = RFileList held ->
  duplicate o argCount = false ->
  validation o [token] = None ->
  OpenFile token (fileFlag o) (filePerm o) w = (inr msg, w') ->
  exists o',
    parse o [token] argCount w =
      Return (Some (open_failure msg (release_failures held w')), o',
              released held w') /\
    result o' = RFileList [] /\
    parsed o' = parsed o.
Proof.
  intros Hr Hd Hv Ho. exists (set_result o (RFileList [])).
  unfold parse, convert. rewrite Hd, Hv, Hr, Ho, rollback_unfolds.
  repeat split.
Qed.

End Binder.

(** On the small operating system a descriptor passed to [Close] is not
    open afterwards, whatever the answer, so after a failed open no file the
    list held is left open. *)
Lemma demo_released_all_closed
  (held : list nat) (w : Demo.os_state) (fd : nat) :
  In fd held ->
  ~ In fd (Demo.opened (released (P := Demo.platform) held w)).
Proof.
  apply (released_all_closed (P := Demo.platform)
           (fun f w' => ~ In f (Demo.opened w'))).
  - intros f w' Hin. simpl in Hin. unfold Demo.close_file in Hin.
    destruct (existsb (Nat.eqb f) (Demo.opened w')) eqn:He; simpl in Hin.
    + apply filter_In in Hin. destruct Hin as [_ Hn].
      now rewrite Nat.eqb_refl in Hn.
    + assert (Hex : existsb (Nat.eqb f) (Demo.opened w') = true)
        by (apply existsb_exists; exists f; split;
            [exact Hin | apply Nat.eqb_refl]).
      congruence.
  - intros f g w' Hg Hin. apply Hg. simpl in Hin. unfold Demo.close_file in Hin.
    destruct (existsb (Nat.eqb f) (Demo.opened w')); simpl in Hin.
    + apply filter_In in Hin. tauto.
    + exact Hin.
Qed.

(** A unique counter met twice in one token is refused. *)
Lemma parse_rejects_duplicate_witness :
  parse Examples.counter_once [] 2 (Demo.fresh []) =
    Return (Some (Errorf "[%s] can only be present once" [VString "-v"]),
            Examples.counter_once, Demo.fresh []).
Proof.
  apply (parse_rejects_duplicate (P := Demo.platform)
           Examples.counter_once [] 2 (Demo.fresh []));
    [reflexivity | right; lia].
Defined.

(** The flag bound with two captured tokens is set all the same. *)
Lemma parse_bool_ignores_tokens_witness :
  parse Examples.force ["x"; "y"] 1 (Demo.fresh []) =
    Return (None, bound Examples.force (RBool true), Demo.fresh []).
Proof.
  apply (parse_bool_ignores_tokens (P := Demo.platform)
           Examples.force false ["x"; "y"] 1 (Demo.fresh []));
    reflexivity.
Defined.

(** C4 as stated fails on the code: binding the flag with one captured
    token returns no error. *)
Lemma parse_bool_arity_claim_fails :
  ~ bind_fails Examples.force ["x"] 1 (Demo.fresh []).
Proof.
  intros [e [o' [w' H]]].
  assert (E : parse Examples.force ["x"] 1 (Demo.fresh []) =
              Return (None, bound Examples.force (RBool true), Demo.fresh []))
    by reflexivity.
  rewrite E in H. discriminate H.
Qed.

(** The list holds descriptors 0 and 7 and only 0 is open: the open of
    [zz] fails, 0 is closed, the close of 7 fails, and the slot is empty. *)
Lemma parse_file_list_open_failure_witness :
  exists o',
    parse Examples.inputs ["zz"] 1 Examples.one_open =
      Return (Some (Errorf "while handling error: %v, other errors occured: %#v"
                           [VString "open zz: no such file or directory";
                            VStrings ["close: file already closed"]]),
              o',
              {| Demo.present := []; Demo.opened := []; Demo.next_fd := 1 |}) /\
    result o' = RFileList [] /\
    parsed o' = parsed Examples.inputs.
Proof.
  apply (parse_file_list_open_failure (P := Demo.platform)
           Examples.inputs [0%nat; 7%nat] "zz" 1
           Examples.one_open Examples.one_open
           "open zz: no such file or directory");
    reflexivity.
Defined.

(** ** Default applier *)

Section Defaults.

Context {P : Platform}.

(** C8.  For a matched option [setDefault] returns no error and changes
    neither the option nor the world, whatever default is declared; an
    error comes out of [setDefault] only for an unmatched option with a
    declared default; and for such an option, with a slot of a supported
    type and a default of another dynamic type than the slot asks for, the
    mismatch error is returned. *)
Theorem setDefault_skips_matched :
  (forall (o : arg) (w : world),
      parsed o = true -> setDefault o w = (None, o, w)) /\
  (forall (o : arg) (w : world) e o' w',
      setDefault o w = (Some e, o', w') ->
      parsed o = false /\
      exists op d, opts o = Some op /\ Default op = Some d) /\
  (forall (o : arg) (w : world) op d ty,
      parsed o = false -> opts o = Some op -> Default op = Some d ->
      default_type_for (result o) = Some ty -> fits (result o) d = false ->
      setDefault o w = mismatch d ty o w).
Proof.
  split; [|split].
  - intros o w H. unfold setDefault. now rewrite H.
  - intros o w e o' w' H. unfold setDefault in H.
    destruct (parsed o); [discriminate H|]. split; [reflexivity|].
    destruct (opts o) as [op|]; [|discriminate H].
    destruct (Default op) as [d|] eqn:Hd; [|discriminate H].
    exists op, d. auto.
  - intros o w op d ty Hp Ho Hd Hty Hfit. unfold setDefault, apply_default.
    rewrite Hp, Ho, Hd.
    destruct (result o); simpl in Hty; inversion Hty; subst;
      destruct d; simpl in Hfit; try discriminate Hfit; reflexivity.
Qed.

(** C5 (as amended).  For an option whose slot type is outside the
    supported set, [setDefault] returns no error and leaves the option and
    the world as they were, declared default or not: its type switch has no
    default case.  The unsupported type is reported by [parse] alone, when
    the binding reaches the conversion. *)
Theorem setDefault_silent_on_unsupported (o : arg) (w : world) :
  supported (result o) = false ->
  setDefault o w = (None, o, w) /\
  forall t args argCount,
    result o = ROther t ->
    duplicate o argCount = false -> validation o args = None ->
    parse o args argCount w =
      Return (Some (Errorf "unsupported type [%t]" [VPointer t]), o, w).
Proof.
  intros H. split.
  - unfold setDefault, apply_default.
    destruct (parsed o); [reflexivity|].
    destruct (opts o) as [op|]; [|reflexivity].
    destruct (Default op) as [d|]; [|reflexivity].
    destruct (result o); simpl in H; try discriminate H; reflexivity.
  - intros t args argCount Hr Hd Hv. unfold parse, convert.
    now rewrite Hd, Hv, Hr.
Qed.

(** For a file-list default, when the first name opens and the second does
    not, the files closed are those of the list the slot held before; the
    file just opened is not among the calls of [Close]. *)
Lemma setDefault_file_list_second_fails
  (o : arg) (op : Options) (held : list File) (v1 v2 : string)
  (others : list string) (f : File) (w w1 w2 : world) (msg : string) :
  parsed o = false -> opts o = Some op ->
  Default op = Some (DStrings (v1 :: v2 :: others)) ->
  result o = RFileList held ->
  OpenFile v1 (fileFlag o) (filePerm o) w = (inl f, w1) ->
  OpenFile v2 (fileFlag o) (filePerm o) w1 = (inr msg, w2) ->
  setDefault o w =
    (Some (open_failure msg (release_failures held w2)),
     set_result o (RFileList []), released held w2).
Proof.
  intros Hp Ho Hd Hr H1 H2. unfold setDefault, apply_default.
  rewrite Hp, Ho, Hd, Hr. simpl. rewrite H1, H2, rollback_unfolds. reflexivity.
Qed.

End Defaults.

(** A matched flag with a string default is left alone; the same flag
    unmatched gets the mismatch error. *)
Lemma setDefault_skips_matched_witness :
  setDefault Examples.matched_flag (Demo.fresh []) =
    (None, Examples.matched_flag, Demo.fresh []) /\
  setDefault Examples.unmatched_flag (Demo.fresh []) =
    (Some (Errorf "cannot use default type [%T] as type [bool]"
                  [VTypeOf "string"]),
     Examples.unmatched_flag, Demo.fresh []).
Proof.
  split.
  - apply (proj1 (setDefault_skips_matched (P := Demo.platform))).
    reflexivity.
  - apply (proj2 (proj2 (setDefault_skips_matched (P := Demo.platform)))
             Examples.unmatched_flag (Demo.fresh [])
             (Demo.options_of false None (Some (DString "yes")))
             (DString "yes") "bool");
      reflexivity.
Defined.

(** A slot of type [*uint] with the default 5 is passed over in silence. *)
Lemma setDefault_silent_on_unsupported_witness :
  setDefault Examples.odd_slot (Demo.fresh []) =
    (None, Examples.odd_slot, Demo.fresh []).
Proof.
  apply (setDefault_silent_on_unsupported (P := Demo.platform)
           Examples.odd_slot (Demo.fresh [])).
  reflexivity.
Defined.

(** C5 as stated fails on the code: default application on a slot of an
    unsupported type, unmatched and with a declared default, returns no
    error. *)
Lemma setDefault_unsupported_claim_fails :
  ~ default_fails Examples.odd_slot (Demo.fresh []).
Proof.
  intros [e [o' [w' H]]].
  assert (E : setDefault Examples.odd_slot (Demo.fresh []) =
              (None, Examples.odd_slot, Demo.fresh [])) by reflexivity.
  rewrite E in H. discriminate H.
Qed.

(** C2: what the code does where the property fails.  The default names
    [a], which opens as descriptor 0, and [b], which does not open:
    [setDefault] returns the open failure and empties the slot, and
    descriptor 0 is still open in the world it leaves, since the loop that
    closes runs over the list the slot held and not over the files just
    opened. *)
Theorem setDefault_file_list_leaks_opened_file :
  setDefault Examples.two_defaults (Demo.fresh ["a"]) =
    (Some (Foreign "open b: no such file or directory"),
     set_result Examples.two_defaults (RFileList []),
     {| Demo.present := ["a"]; Demo.opened := [0%nat]; Demo.next_fd := 1 |}).
Proof. reflexivity. Qed.

(** ** Presenter *)

Section Presenter.

Context {P : Platform}.

(** C9.  For an integer option with short name n and long name number,
    [name] renders -n|--number, and [usage] renders that name followed by
    the integer hint, bare when the option is declared required and between
    brackets when it is not (no options, or required unset). *)
Theorem usage_of_number_option (o : arg) (n : Z) :
  sname o = "n" -> lname o = "number" -> result o = RInt n ->
  name o = "-n|--number" /\
  (forall op, opts o = Some op -> Required op = true ->
              usage o = "-n|--number <integer>") /\
  (opts o = None \/ (exists op, opts o = Some op /\ Required op = false) ->
   usage o = "[-n|--number <integer>]").
Proof.
  intros Hs Hl Hr.
  assert (Hn : name o = "-n|--number")
    by (unfold name; rewrite Hs, Hl; reflexivity).
  split; [exact Hn|]. unfold usage. rewrite Hn, Hr. split.
  - intros op Ho Hq. now rewrite Ho, Hq.
  - intros [Ho | [op [Ho Hq]]]; rewrite Ho; [|rewrite Hq]; reflexivity.
Qed.

End Presenter.

(** The option [number], required and not. *)
Lemma usage_of_number_option_witness :
  usage Examples.number_required = "-n|--number <integer>" /\
  usage Examples.number_optional = "[-n|--number <integer>]" /\
  usage Examples.number = "[-n|--number <integer>]".
Proof.
  split; [|split].
  - apply (proj1 (proj2 (usage_of_number_option (P := Demo.platform)
                           Examples.number_required 0
                           eq_refl eq_refl eq_refl))
             (Demo.options_of true None None));
      reflexivity.
  - apply (proj2 (proj2 (usage_of_number_option (P := Demo.platform)
                           Examples.number_optional 0
                           eq_refl eq_refl eq_refl))).
    right. exists (Demo.options_of false None None). split; reflexivity.
  - apply (proj2 (proj2 (usage_of_number_option (P := Demo.platform)
                           Examples.number 0 eq_refl eq_refl eq_refl))).
    left. reflexivity.
Defined.

(** * Further properties of the engine *)

(** ** Counting and removing in strings *)

Lemma HasPrefix_two_dashes (s : string) :
  HasPrefix s "--" = true -> HasPrefix s "-" = true.
Proof.
  destruct s as [|a t]; cbn [HasPrefix]; intros H; [discriminate H|].
  apply andb_true_iff in H. destruct H as [H _]. now rewrite H.
Qed.

Lemma count_scan_le (sub s : string) :
  forall k, (count_scan sub s k <= String.length s)%nat.
Proof.
  induction s as [|a t IH]; intros k; cbn [count_scan String.length]; [lia|].
  destruct k as [|k].
  - destruct (HasPrefix (String a t) sub).
    + specialize (IH (Nat.pred (String.length sub))). lia.
    + specialize (IH O). lia.
  - specialize (IH k). lia.
Qed.

Lemma HasPrefix_single (c a : ascii) (t : string) :
  HasPrefix (String a t) (String c EmptyString) = Ascii.eqb c a.
Proof. cbn [HasPrefix]. apply andb_true_r. Qed.

Lemma count_scan_single (c : ascii) (s : string) :
  count_scan (String c EmptyString) s O = occurrences c s.
Proof.
  induction s as [|a t IH]; [reflexivity|].
  cbn [count_scan occurrences]. rewrite HasPrefix_single.
  cbn [String.length Nat.pred]. rewrite IH. reflexivity.
Qed.

Lemma remove_scan_single (c : ascii) (s : string) :
  remove_scan (String c EmptyString) s O = without c s.
Proof.
  induction s as [|a t IH]; [reflexivity|].
  cbn [remove_scan without]. rewrite HasPrefix_single.
  cbn [String.length Nat.pred]. rewrite IH. reflexivity.
Qed.

Lemma remove_scan_miss (sub : string) (a : ascii) (t : string) :
  HasPrefix (String a t) sub = false ->
  remove_scan sub (String a t) O = String a (remove_scan sub t O).
Proof. intros H. cbn [remove_scan]. now rewrite H. Qed.

Lemma count_zero_not_contained (c : ascii) (tl s : string) :
  count_scan (String c tl) s O = O -> Contains s (String c tl) = false.
Proof.
  induction s as [|a t IH]; [reflexivity|].
  cbn [count_scan Contains].
  destruct (HasPrefix (String a t) (String c tl)); [discriminate|].
  exact IH.
Qed.

Lemma not_contained_without (c : ascii) (s : string) :
  Contains s (String c EmptyString) = false -> without c s = s.
Proof.
  induction s as [|a t IH]; [reflexivity|].
  cbn [Contains without]. rewrite HasPrefix_single.
  destruct (Ascii.eqb c a); [discriminate|]. cbn [orb].
  intros H. now rewrite (IH H).
Qed.

Lemma occurrences_without (c d : ascii) (s : string) :
  c <> d -> occurrences d (without c s) = occurrences d s.
Proof.
  intros Hcd. induction s as [|a t IH]; [reflexivity|].
  cbn [without occurrences].
  destruct (Ascii.eqb_spec c a) as [<-|Hca].
  - destruct (Ascii.eqb_spec d c) as [->|_]; [congruence | exact IH].
  - cbn [occurrences]. now rewrite IH.
Qed.

Lemma dash_free_without (c : ascii) (s : string) :
  dash_free s = true -> dash_free (without c s) = true.
Proof.
  induction s as [|a t IH]; [reflexivity|].
  cbn [dash_free without]. intros H. apply andb_true_iff in H.
  destruct H as [Ha Ht]. destruct (Ascii.eqb c a); [now apply IH|].
  cbn [dash_free]. now rewrite Ha, IH.
Qed.

(** ** Matcher *)

Section MatcherMore.

Context {P : Platform}.

Lemma no_dash_no_long (o : arg) (token : string) :
  HasPrefix token "--" = false -> long_match o token = false.
Proof.
  intros H. unfold long_match. rewrite H. cbn [andb].
  now rewrite andb_false_r.
Qed.

Lemma no_dash_not_help (token : string) :
  HasPrefix token "--" = false -> (token =? "--help")%string = false.
Proof.
  intros H. apply String.eqb_neq. intros ->. discriminate H.
Qed.

(** What [check] returns on a token in the short form that is not the help
    shortcut. *)
Lemma check_short_form (o : arg) (token : string) :
  (token =? "-h")%string = false ->
  HasPrefix token "--" = false ->
  short_form o token = true ->
  check o token =
    Return (if size o =? 1 then Count (slice_from 1 token) (sname o)
            else if (slice_from 1 token =? sname o)%string then 1 else 0).
Proof.
  intros Hh Hd Hs. unfold check.
  rewrite Hh, (no_dash_not_help _ Hd), (no_dash_no_long o _ Hd), Hs.
  cbn [orb]. destruct (size o =? 1); [reflexivity|].
  now destruct (slice_from 1 token =? sname o)%string.
Qed.

Lemma second_byte_no_long (b : ascii) (rest : string) :
  b <> dash -> HasPrefix (String "-" (String b rest)) "--" = false.
Proof.
  intros Hb. cbn [HasPrefix].
  assert (E : Ascii.eqb "-" b = false)
    by (apply Ascii.eqb_neq; intros E; apply Hb; now rewrite <- E).
  rewrite E. now rewrite andb_false_r.
Qed.

Lemma short_form_of_body (o : arg) (b : ascii) (rest : string) :
  sname o <> "" -> b <> dash ->
  short_form o (String "-" (String b rest)) = true.
Proof.
  intros Hs Hb. unfold short_form, nonempty, byte_differs.
  apply String.eqb_neq in Hs. rewrite Hs.
  cbn [HasPrefix get String.length negb andb].
  apply Ascii.eqb_neq in Hb. rewrite Hb, Ascii.eqb_refl. reflexivity.
Qed.

(** X1.  A token that does not start with a dash, the empty token of a
    consumed position included, matches no option: [check] returns 0. *)
Theorem check_ignores_plain_tokens (o : arg) (token : string) :
  HasPrefix token "-" = false -> check o token = Return 0.
Proof.
  intros H.
  assert (Hd : HasPrefix token "--" = false).
  { destruct (HasPrefix token "--") eqn:E; trivial.
    apply HasPrefix_two_dashes in E. congruence. }
  assert (Hh : (token =? "-h")%string = false)
    by (apply String.eqb_neq; intros ->; discriminate H).
  unfold check. rewrite Hh, (no_dash_not_help _ Hd), (no_dash_no_long o _ Hd).
  cbn [orb]. unfold short_form. rewrite H. cbn [andb].
  now rewrite andb_false_r.
Qed.

(** X2.  Whenever [check] returns, the count is not negative and at most
    the length of the token; for an option that is not combinable (size
    other than 1) it is 0 or 1. *)
Theorem check_count_bounds (o : arg) (token : string) (n : Z) :
  check o token = Return n ->
  0 <= n <= Z.of_nat (String.length token) /\ (size o <> 1 -> n <= 1).
Proof.
  unfold check.
  destruct ((token =? "-h")%string || (token =? "--help")%string);
    [discriminate|].
  destruct (long_match o token) eqn:Hl.
  { intros E. injection E as <-. unfold long_match in Hl.
    apply andb_true_iff in Hl. destruct Hl as [Hl _].
    apply andb_true_iff in Hl. destruct Hl as [Hl _].
    apply andb_true_iff in Hl. destruct Hl as [Hl _].
    apply andb_true_iff in Hl. destruct Hl as [_ Hl].
    apply Nat.ltb_lt in Hl. lia. }
  destruct (short_form o token) eqn:Hs;
    [|intros E; injection E as <-; lia].
  assert (Hlen : (1 < String.length token)%nat).
  { unfold short_form in Hs.
    apply andb_true_iff in Hs. destruct Hs as [Hs _].
    apply andb_true_iff in Hs. destruct Hs as [Hs _].
    apply andb_true_iff in Hs. destruct Hs as [_ Hs].
    now apply Nat.ltb_lt in Hs. }
  assert (Hname : exists c tl, sname o = String c tl).
  { unfold short_form, nonempty in Hs.
    destruct (sname o) as [|c tl]; [discriminate Hs|]. now exists c, tl. }
  destruct (Z.eqb_spec (size o) 1) as [Hz|Hz].
  - intros E. injection E as <-. destruct Hname as [c [tl ->]].
    unfold Count. split; [|intros Hn; contradiction].
    pose proof (count_scan_le (String c tl) (slice_from 1 token) O) as Hle.
    destruct token as [|a t]; cbn [slice_from String.length] in *; lia.
  - destruct (slice_from 1 token =? sname o)%string;
      intros E; injection E as <-; lia.
Qed.

(** X3.  A token made of two dashes and the long name is counted once,
    whatever the size and the short name of the option, as long as the long
    name does not start with a dash and is not the word help. *)
Theorem check_long_name (o : arg) (c : ascii) (tl : string) :
  lname o = String c tl -> c <> dash -> lname o <> "help" ->
  check o ("--" ++ lname o) = Return 1.
Proof.
  intros Hn Hc Hh. unfold check.
  assert (E1 : ("--" ++ lname o =? "-h")%string = false).
  { rewrite Hn. reflexivity. }
  assert (E2 : ("--" ++ lname o =? "--help")%string = false).
  { apply String.eqb_neq. intros E. apply Hh.
    cbn [append] in E. now injection E. }
  rewrite E1, E2. cbn [orb].
  assert (El : long_match o ("--" ++ lname o) = true).
  { unfold long_match, nonempty, byte_differs. rewrite Hn.
    change ("--" ++ String c tl) with (String "-" (String "-" (String c tl))).
    cbn [HasPrefix get String.length slice_from].
    rewrite Ascii.eqb_refl, String.eqb_refl.
    apply Ascii.eqb_neq in Hc. rewrite Hc. reflexivity. }
  now rewrite El.
Qed.

(** X4.  For a combinable option (size 1) whose short name is one byte
    other than a dash, and a token made of a dash and a body that does not
    start with a dash, the help shortcut apart, [check] returns the number
    of bytes of the body equal to the short name: flags combined in any
    order are counted, each for its own option. *)
Theorem check_counts_occurrences
  (o : arg) (c b : ascii) (rest : string) :
  size o = 1 -> sname o = String c EmptyString ->
  b <> dash -> String "-" (String b rest) <> "-h" ->
  check o (String "-" (String b rest)) =
    Return (Z.of_nat (occurrences c (String b rest))).
Proof.
  intros Hsize Hname Hb Hh.
  rewrite (check_short_form o).
  - rewrite Hsize, Hname. cbn [Z.eqb Pos.eqb slice_from]. unfold Count.
    now rewrite count_scan_single.
  - now apply String.eqb_neq.
  - now apply second_byte_no_long.
  - apply short_form_of_body; [rewrite Hname; discriminate | exact Hb].
Qed.

End MatcherMore.

(** A value and a consumed position match nothing. *)
Lemma check_ignores_plain_tokens_witness :
  check Examples.number "5" = Return 0 /\ check Examples.number "" = Return 0.
Proof.
  split; apply (check_ignores_plain_tokens (P := Demo.platform));
    reflexivity.
Defined.

(** The token of three flags counts 3, within the bounds. *)
Lemma check_count_bounds_witness :
  0 <= 3 <= 4 /\ (size Examples.verbosity <> 1 -> 3 <= 1).
Proof.
  apply (check_count_bounds (P := Demo.platform) Examples.verbosity "-vvv" 3).
  reflexivity.
Defined.

(** The long form of the option [number]. *)
Lemma check_long_name_witness :
  check Examples.number "--number" = Return 1.
Proof.
  apply (check_long_name (P := Demo.platform) Examples.number "n" "umber");
    [reflexivity | discriminate | discriminate].
Defined.

(** In [-vxv] the flag v occurs twice. *)
Lemma check_counts_occurrences_witness :
  check Examples.verbosity "-vxv" = Return 2.
Proof.
  apply (check_counts_occurrences (P := Demo.platform)
           Examples.verbosity "v" "v" "xv");
    [reflexivity | reflexivity | discriminate | discriminate].
Defined.

(** ** Consumer *)

Lemma wrap_le (z : Z) : min_int <= z -> wrap z <= z.
Proof.
  unfold wrap, min_int. intros H.
  pose proof (Z.mod_le (z - -9223372036854775808) (2 ^ 64)
                ltac:(lia) ltac:(lia)).
  lia.
Qed.

Lemma store_nat_some (args args' : list string) (i : nat) (v : string) :
  store_nat args i v = Some args' -> (i < List.length args)%nat.
Proof.
  revert i args'. induction args as [|a t IH]; intros i args' H;
    [discriminate H|].
  destruct i as [|i]; simpl; [lia|]. simpl in H.
  destruct (store_nat t i v) as [t'|] eqn:E; [|discriminate H].
  specialize (IH i t' E). lia.
Qed.

Lemma store_some (args args' : list string) (i : Z) (v : string) :
  store args i v = Some args' ->
  0 <= i < Z.of_nat (List.length args) /\
  List.length args' = List.length args /\
  load args' i = Some v /\
  forall j, j <> i -> load args' j = load args j.
Proof.
  intros H.
  assert (Hi : 0 <= i < Z.of_nat (List.length args)).
  { unfold store in H. destruct (Z.ltb_spec i 0); [discriminate H|].
    apply store_nat_some in H. lia. }
  destruct (store_spec args i v Hi) as [args2 [Hs [Hl Hn]]].
  rewrite H in Hs. injection Hs as <-.
  repeat split; try lia; trivial.
  - rewrite Hn by lia. now rewrite Z.eqb_refl.
  - intros j Hj. destruct (Z.ltb_spec j 0) as [Hneg|Hpos].
    + unfold load. apply Z.ltb_lt in Hneg. now rewrite Hneg.
    + rewrite Hn by lia. destruct (Z.eqb_spec j i); [contradiction|trivial].
Qed.

Lemma blank_loop_frame (steps : nat) :
  forall (i : Z) (args args' : list string),
    blank_loop steps i args = Return args' ->
    List.length args' = List.length args /\
    forall j, j < i \/ i + Z.of_nat steps <= j -> load args' j = load args j.
Proof.
  induction steps as [|k IH]; intros i args args' H; simpl in H.
  - injection H as <-. auto.
  - destruct (store args i "") as [args1|] eqn:Hs; [|discriminate H].
    destruct (store_some _ _ _ _ Hs) as [_ [Hl1 [_ Hn1]]].
    destruct (IH _ _ _ H) as [Hl Hn]. split; [congruence|].
    intros j Hj. rewrite Hn by lia. apply Hn1. lia.
Qed.

Lemma blank_loop_panics (steps : nat) :
  forall (i : Z) (args : list string),
    0 <= i <= Z.of_nat (List.length args) ->
    Z.of_nat (List.length args) < i + Z.of_nat steps ->
    blank_loop steps i args = Panic.
Proof.
  induction steps as [|k IH]; intros i args Hi Hlen; [lia|].
  simpl. destruct (store args i "") as [args1|] eqn:Hs; [|reflexivity].
  destruct (store_some _ _ _ _ Hs) as [Hr [Hl1 _]].
  apply IH; rewrite Hl1; lia.
Qed.

Section ConsumerMore.

Context {P : Platform}.

Lemma check_blank (o : arg) : check o "" = Return 0.
Proof.
  unfold check, long_match, short_form. cbn [String.eqb orb String.length].
  cbn [Nat.ltb Nat.leb]. now rewrite !andb_false_r.
Qed.

Lemma reduce_blank (o : arg) (position : Z) (args : list string) :
  load args position = Some "" -> reduce o position args = Return args.
Proof.
  intros H. unfold reduce, long_match, short_form. rewrite H.
  cbn [String.length Nat.ltb Nat.leb]. now rewrite !andb_false_r.
Qed.

(** X5.  Matcher and consumer agree: when [check] counts 0 for the token
    at a position, [reduce] at that position leaves the whole sequence as
    it is. *)
Theorem reduce_skips_unmatched
  (o : arg) (position : Z) (args : list string) (token : string) :
  load args position = Some token ->
  check o token = Return 0 ->
  reduce o position args = Return args.
Proof.
  intros Hload Hc. unfold reduce. rewrite Hload. unfold check in Hc.
  destruct ((token =? "-h")%string || (token =? "--help")%string);
    [discriminate Hc|].
  destruct (long_match o token); [discriminate Hc|].
  destruct (short_form o token) eqn:Hs; [|reflexivity].
  destruct (size o =? 1).
  - unfold short_form, nonempty in Hs. revert Hc.
    destruct (sname o) as [|c tl] eqn:Hn; [discriminate Hs|].
    intros Hc. injection Hc as Hc. unfold Count in Hc.
    assert (Hz : count_scan (String c tl) (slice_from 1 token) O = O)
      by (apply Nat2Z.inj; exact Hc).
    rewrite (count_zero_not_contained c tl _ Hz). reflexivity.
  - destruct (slice_from 1 token =? sname o)%string;
      [discriminate Hc | reflexivity].
Qed.

(** X6.  Consuming a whole-token match is idempotent: the first [reduce]
    leaves the empty string at the position, and a second [reduce] at the
    same position changes nothing. *)
Theorem reduce_once_is_enough
  (o : arg) (position : Z) (args : list string) (token : string) :
  load args position = Some token ->
  whole_token_match o token = true ->
  0 <= arity o ->
  position + arity o < Z.of_nat (List.length args) ->
  Z.of_nat (List.length args) <= max_int ->
  exists args',
    reduce o position args = Return args' /\
    load args' position = Some "" /\
    reduce o position args' = Return args'.
Proof.
  intros Hload Hm Ha Hlen Hmax.
  pose proof (load_in_range _ _ _ Hload) as Hpos.
  destruct (blank_spec o position args ltac:(lia) Ha Hlen Hmax)
    as [args' [Hb [Hl Hr]]].
  assert (Hblank : load args' position = Some "").
  { rewrite (Hr position Hpos).
    destruct (Z.leb_spec position position),
             (Z.leb_spec position (position + arity o));
      simpl; trivial; lia. }
  exists args'. split; [|split; [exact Hblank | now apply reduce_blank]].
  unfold reduce. rewrite Hload.
  unfold whole_token_match in Hm. apply orb_true_iff in Hm.
  destruct Hm as [Hlm | Hs].
  - rewrite Hlm, Hb, (long_excludes_short _ _ Hlm). reflexivity.
  - apply andb_true_iff in Hs. destruct Hs as [Hs He].
    apply andb_true_iff in Hs. destruct Hs as [Hz Hs].
    rewrite (short_excludes_long _ _ Hs), Hs, He.
    apply negb_true_iff in Hz. now rewrite Hz.
Qed.

Lemma blank_frame (o : arg) (position : Z) (args args' : list string) :
  0 <= position -> in_range (size o) ->
  blank o position args = Return args' ->
  List.length args' = List.length args /\
  forall i, i < position \/ position + Z.max 1 (size o) <= i ->
            load args' i = load args i.
Proof.
  intros Hp Hsz H. unfold blank in H.
  destruct (blank_loop_frame _ _ _ _ H) as [Hl Hn]. split; [exact Hl|].
  intros i Hi. apply Hn. destruct Hi as [Hi|Hi]; [now left|right].
  pose proof (wrap_le (position + size o)) as Hw.
  unfold int_add. unfold in_range, min_int in *.
  specialize (Hw ltac:(unfold min_int; lia)). lia.
Qed.

(** X7.  Whenever [reduce] returns, the sequence has the length it had,
    and every token before [position], and every token from
    [position + size] on (from [position + 1] on when the size is below 1),
    is the one it was: an option consumes its own tokens only. *)
Theorem reduce_frame
  (o : arg) (position : Z) (args args' : list string) :
  in_range (size o) ->
  reduce o position args = Return args' ->
  List.length args' = List.length args /\
  forall i, i < position \/ position + Z.max 1 (size o) <= i ->
            load args' i = load args i.
Proof.
  intros Hsz H. unfold reduce in H.
  destruct (load args position) as [token|] eqn:Hload; [|discriminate H].
  pose proof (load_in_range _ _ _ Hload) as Hpos.
  destruct (long_match o token) eqn:Hl.
  - rewrite (long_excludes_short _ _ Hl) in H.
    destruct (blank o position args) as [args1| |] eqn:Hb;
      try discriminate H.
    injection H as <-. apply (blank_frame o position); trivial; lia.
  - destruct (short_form o token); [|injection H as <-; auto].
    destruct (size o =? 1).
    + destruct (Contains (slice_from 1 token) (sname o));
        [|injection H as <-; auto].
      destruct (store args position _) as [args2|] eqn:Hs;
        [|discriminate H].
      injection H as <-.
      destruct (store_some _ _ _ _ Hs) as [_ [Hl2 [_ Hn2]]].
      split; [exact Hl2|]. intros i Hi. apply Hn2. lia.
    + destruct (slice_from 1 token =? sname o)%string;
        [|injection H as <-; auto].
      apply (blank_frame o position); trivial; lia.
Qed.

(** X8.  When the token at [position] is a whole-token match and the
    sequence ends before the last of the [size] tokens the option takes (a
    value is missing), [reduce] does not return: the store past the end of
    the sequence panics. *)
Theorem reduce_panics_on_missing_value
  (o : arg) (position : Z) (args : list string) (token : string) :
  load args position = Some token ->
  whole_token_match o token = true ->
  Z.of_nat (List.length args) < position + size o ->
  position + size o <= max_int ->
  reduce o position args = Panic.
Proof.
  intros Hload Hm Hlen Hmax.
  pose proof (load_in_range _ _ _ Hload) as Hpos.
  assert (Hb : blank o position args = Panic).
  { unfold blank, int_add.
    rewrite wrap_in_range by (unfold in_range, min_int, max_int in *; lia).
    apply blank_loop_panics; lia. }
  unfold reduce. rewrite Hload.
  unfold whole_token_match in Hm. apply orb_true_iff in Hm.
  destruct Hm as [Hlm | Hs].
  - now rewrite Hlm, Hb.
  - apply andb_true_iff in Hs. destruct Hs as [Hs He].
    apply andb_true_iff in Hs. destruct Hs as [Hz Hs].
    rewrite (short_excludes_long _ _ Hs), Hs, He.
    apply negb_true_iff in Hz. now rewrite Hz.
Qed.

(** What [reduce] does to a token of combined flags. *)
Lemma take_flag_out
  (o : arg) (c b : ascii) (rest : string) (position : Z) (args : list string) :
  size o = 1 -> sname o = String c EmptyString -> c <> dash -> b <> dash ->
  load args position = Some (String "-" (String b rest)) ->
  exists args',
    reduce o position args = Return args' /\
    List.length args' = List.length args /\
    load args' position = Some (flags_left c (String b rest)) /\
    forall i, i <> position -> load args' i = load args i.
Proof.
  intros Hsize Hname Hc Hb Hload.
  pose proof (load_in_range _ _ _ Hload) as Hpos.
  unfold reduce. rewrite Hload.
  rewrite (no_dash_no_long o _ (second_byte_no_long b rest Hb)).
  rewrite (short_form_of_body o b rest
             ltac:(rewrite Hname; discriminate) Hb).
  rewrite Hsize, Hname. cbn [Z.eqb Pos.eqb slice_from].
  destruct (Contains (String b rest) (String c EmptyString)) eqn:Hin.
  - unfold RemoveAll.
    assert (Hrem : remove_scan (String c EmptyString)
                     (String "-" (String b rest)) O =
                   String "-" (without c (String b rest))).
    { assert (E : Ascii.eqb c "-" = false) by now apply Ascii.eqb_neq.
      rewrite remove_scan_miss by (now rewrite HasPrefix_single).
      f_equal. apply remove_scan_single. }
    rewrite Hrem.
    assert (Hval : (if (String "-" (without c (String b rest)) =? "-")%string
                    then "" else String "-" (without c (String b rest))) =
                   flags_left c (String b rest)).
    { unfold flags_left. destruct (without c (String b rest)) as [|a t].
      - reflexivity.
      - cbn [String.eqb]. rewrite Ascii.eqb_refl. cbn [String.eqb].
        reflexivity. }
    rewrite Hval.
    destruct (store_spec args position (flags_left c (String b rest)) Hpos)
      as [args' [Hs [Hl Hn]]].
    rewrite Hs. exists args'. split; [reflexivity|]. split; [exact Hl|].
    destruct (store_some _ _ _ _ Hs) as [_ [_ [Hat Hoff]]]. auto.
  - exists args. split; [reflexivity|]. split; [reflexivity|].
    split; [|reflexivity].
    unfold flags_left. rewrite (not_contained_without c _ Hin). exact Hload.
Qed.


(** X10.  Combined flags do not disturb each other: for two combinable
    options with different one-byte short names and a token of flags with
    no dash in its body, after the first option has consumed its flag the
    second option counts in the token what it counted before, as long as
    neither token is the help shortcut. *)
Theorem reduce_keeps_other_flags
  (o1 o2 : arg) (c1 c2 b : ascii) (rest : string)
  (position : Z) (args : list string) :
  size o1 = 1 -> sname o1 = String c1 EmptyString -> c1 <> dash ->
  size o2 = 1 -> sname o2 = String c2 EmptyString ->
  c1 <> c2 ->
  dash_free (String b rest) = true ->
  load args position = Some (String "-" (String b rest)) ->
  String "-" (String b rest) <> "-h" ->
  flags_left c1 (String b rest) <> "-h" ->
  exists args',
    reduce o1 position args = Return args' /\
    load args' position = Some (flags_left c1 (String b rest)) /\
    check o2 (flags_left c1 (String b rest)) =
      check o2 (String "-" (String b rest)).
Proof.
  intros Hs1 Hn1 Hc1 Hs2 Hn2 Hne Hfree Hload Hh Hh'.
  assert (Hb : b <> dash).
  { cbn [dash_free] in Hfree. apply andb_true_iff in Hfree.
    destruct Hfree as [Hfree _]. apply negb_true_iff in Hfree.
    now apply Ascii.eqb_neq. }
  destruct (take_flag_out o1 c1 b rest position args Hs1 Hn1 Hc1 Hb Hload)
    as [args' [Hred [_ [Hat _]]]].
  exists args'. split; [exact Hred|]. split; [exact Hat|].
  assert (Hcount : forall b' rest',
             b' <> dash -> String "-" (String b' rest') <> "-h" ->
             check o2 (String "-" (String b' rest')) =
               Return (Z.of_nat (occurrences c2 (String b' rest')))).
  { intros b' rest' Hb' Hnh. rewrite (check_short_form o2).
    - rewrite Hs2, Hn2. cbn [Z.eqb Pos.eqb slice_from]. unfold Count.
      now rewrite count_scan_single.
    - now apply String.eqb_neq.
    - now apply second_byte_no_long.
    - apply short_form_of_body; [rewrite Hn2; discriminate | exact Hb']. }
  rewrite (Hcount b rest Hb Hh).
  rewrite <- (occurrences_without c1 c2 (String b rest) Hne).
  pose proof (dash_free_without c1 _ Hfree) as Hfree'.
  unfold flags_left in *.
  destruct (without c1 (String b rest)) as [|b' rest'] eqn:Hw.
  - apply check_blank.
  - apply Hcount; [|exact Hh'].
    cbn [dash_free] in Hfree'. apply andb_true_iff in Hfree'.
    destruct Hfree' as [Hfree' _]. apply negb_true_iff in Hfree'.
    now apply Ascii.eqb_neq.
Qed.

End ConsumerMore.

(** A value matches nothing, and consuming it changes nothing. *)
Lemma reduce_skips_unmatched_witness :
  reduce Examples.number 0 ["5"; "x"] = Return ["5"; "x"].
Proof.
  apply (reduce_skips_unmatched (P := Demo.platform)
           Examples.number 0 ["5"; "x"] "5");
    reflexivity.
Defined.

(** Consuming [-n 5] twice is consuming it once. *)
Lemma reduce_once_is_enough_witness :
  exists args',
    reduce Examples.number 1 ["a"; "-n"; "5"; "x"] = Return args' /\
    load args' 1 = Some "" /\
    reduce Examples.number 1 args' = Return args'.
Proof.
  apply (reduce_once_is_enough (P := Demo.platform)
           Examples.number 1 ["a"; "-n"; "5"; "x"] "-n");
    [reflexivity | reflexivity | unfold arity; simpl; lia
    | unfold arity; simpl; lia | unfold max_int; simpl; lia].
Defined.

(** Around the two tokens of [-n 5] nothing moves. *)
Lemma reduce_frame_witness :
  List.length ["a"; ""; ""; "x"] = List.length ["a"; "-n"; "5"; "x"] /\
  forall i, i < 1 \/ 1 + Z.max 1 (size Examples.number) <= i ->
            load ["a"; ""; ""; "x"] i = load ["a"; "-n"; "5"; "x"] i.
Proof.
  apply (reduce_frame (P := Demo.platform)
           Examples.number 1 ["a"; "-n"; "5"; "x"] ["a"; ""; ""; "x"]);
    [unfold in_range, min_int, max_int; simpl; lia | reflexivity].
Defined.

(** [-n] as the last token, its value missing. *)
Lemma reduce_panics_on_missing_value_witness :
  reduce Examples.number 0 ["-n"] = Panic.
Proof.
  apply (reduce_panics_on_missing_value (P := Demo.platform)
           Examples.number 0 ["-n"] "-n");
    [reflexivity | reflexivity | simpl; lia | unfold max_int; simpl; lia].
Defined.


(** After v is taken out of [-vxv], x still counts once. *)
Lemma reduce_keeps_other_flags_witness :
  exists args',
    reduce Examples.verbosity 0 ["-vxv"] = Return args' /\
    load args' 0 = Some "-x" /\
    check MoreExamples.extra "-x" = check MoreExamples.extra "-vxv".
Proof.
  apply (reduce_keeps_other_flags (P := Demo.platform)
           Examples.verbosity MoreExamples.extra "v" "x" "v" "xv" 0 ["-vxv"]);
    [reflexivity | reflexivity | discriminate | reflexivity | reflexivity
    | discriminate | reflexivity | reflexivity | discriminate | discriminate].
Defined.

(** ** Binder *)

Lemma wrap_add_wrap (a b : Z) : wrap (wrap a + b) = wrap (a + b).
Proof.
  unfold wrap.
  replace ((a - min_int) mod 2 ^ 64 + min_int + b - min_int)
    with ((a - min_int) mod 2 ^ 64 + b) by lia.
  rewrite Z.add_mod_idemp_l by lia.
  replace (a + b - min_int) with (a - min_int + b) by lia. reflexivity.
Qed.

Section BinderMore.

Context {P : Platform}.

Lemma same_kind_refl (r : slot) : same_kind r r = true.
Proof. destruct r; simpl; trivial. apply String.eqb_refl. Qed.

Lemma same_identity_refl (o : arg) : same_identity o o.
Proof. unfold same_identity. repeat split. Qed.

Lemma existsb_eqb_In (a : string) (l : list string) :
  existsb (String.eqb a) l = true <-> In a l.
Proof.
  rewrite existsb_exists. split.
  - intros [x [Hin Hx]]. apply String.eqb_eq in Hx. now subst x.
  - intros Hin. exists a. split; [exact Hin | apply String.eqb_refl].
Qed.

(** X11.  For a string slot with a selector, once past the uniqueness
    test and the validator, binding one token succeeds exactly when the
    token is one of the allowed values: then the slot holds the token and
    the option is matched; otherwise the error lists the allowed values and
    the option is unchanged. *)
Theorem parse_selector
  (o : arg) (s0 a : string) (allowed : list string) (argCount : Z) (w : world) :
  result o = RString s0 ->
  selector o = Some allowed ->
  duplicate o argCount = false ->
  validation o [a] = None ->
  (In a allowed ->
   parse o [a] argCount w = Return (None, bound o (RString a), w)) /\
  (~ In a allowed ->
   parse o [a] argCount w =
     Return (Some (Errorf "bad value for [%s]. Allowed values are %v"
                          [VString (name o); VStrings allowed]), o, w)).
Proof.
  intros Hr Hsel Hd Hv. unfold parse, convert. rewrite Hd, Hv, Hr, Hsel.
  split; intros Hin.
  - apply existsb_eqb_In in Hin. now rewrite Hin.
  - destruct (existsb (String.eqb a) allowed) eqn:E; [|reflexivity].
    apply existsb_eqb_In in E. contradiction.
Qed.

(** X12.  For a slot whose conversion reads one token, binding any other
    number of tokens fails and changes nothing, in the option or in the
    world: no file is opened.  The one exception is the integer slot bound
    with no token, which is the counter when the size is at most 1. *)
Theorem parse_wrong_token_count
  (o : arg) (args : list string) (argCount : Z) (w : world) :
  takes_value (result o) = true ->
  List.length args <> 1%nat ->
  (forall n, result o = RInt n -> args = [] -> 1 < size o) ->
  duplicate o argCount = false ->
  validation o args = None ->
  exists e, parse o args argCount w = Return (Some e, o, w).
Proof.
  intros Ht Hlen Hint Hd Hv. unfold parse, convert, fail.
  rewrite Hd, Hv.
  destruct (result o) eqn:Hr; simpl in Ht; try discriminate Ht;
    destruct args as [|tok [|tok2 more]]; try (simpl in Hlen; lia);
    try (eexists; reflexivity).
  specialize (Hint n eq_refl eq_refl). apply Z.ltb_lt in Hint.
  rewrite Hint. eexists; reflexivity.
Qed.

(** X13.  Whatever [parse] returns, the option it returns has the names,
    size, options and other identity fields of the option it was given and
    a slot of the same type; and unless the slot is a file or a list of
    files the world is the one it was given. *)
Theorem parse_invariants
  (o o' : arg) (args : list string) (argCount : Z) (w w' : world)
  (err : option error) :
  parse o args argCount w = Return (err, o', w') ->
  same_identity o o' /\
  same_kind (result o) (result o') = true /\
  (holds_files (result o) = false -> w' = w).
Proof.
  unfold parse, convert, fail, done, rollback.
  destruct (duplicate o argCount).
  { intros E. injection E as _ <- <-.
    auto using same_identity_refl, same_kind_refl. }
  destruct (validation o args).
  { intros E. injection E as _ <- <-.
    auto using same_identity_refl, same_kind_refl. }
  destruct (result o) eqn:Hr; try discriminate;
    destruct args as [|tok [|tok2 more]]; split_matches;
    intros E; injection E as _ <- <-;
    (split; [unfold same_identity; repeat split
            | split; [rewrite ?Hr; simpl; trivial; try apply String.eqb_refl
                     | simpl; intros; trivial; try discriminate]]).
Qed.

(** X14.  When [parse] returns an error the slot holds what it held, with
    one exception: a list of files after a failed open, which is empty. *)
Theorem parse_failure_keeps_slot
  (o o' : arg) (args : list string) (argCount : Z) (w w' : world) (e : error) :
  parse o args argCount w = Return (Some e, o', w') ->
  result o' = result o \/
  (exists held, result o = RFileList held /\ result o' = RFileList []).
Proof.
  unfold parse, convert, fail, done, rollback.
  destruct (duplicate o argCount); [intros E; injection E as _ <- _; auto|].
  destruct (validation o args); [intros E; injection E as _ <- _; auto|].
  destruct (result o) eqn:Hr; try discriminate;
    destruct args as [|tok [|tok2 more]]; split_matches;
    intros E; try discriminate E; injection E as _ <- _;
    first [ left; assumption
          | left; reflexivity
          | right; eexists; split; reflexivity ].
Qed.

(** X15.  When [parse] succeeds on a list slot, the list is the one from
    before with exactly one element added at its end: a repeated option
    keeps what the earlier occurrences brought, in order. *)
Theorem parse_list_appends
  (o o' : arg) (args : list string) (argCount : Z) (w w' : world) :
  is_list (result o) = true ->
  parse o args argCount w = Return (None, o', w') ->
  extended_by_one (result o) (result o').
Proof.
  unfold parse, convert, fail, done, rollback. intros Hl.
  destruct (duplicate o argCount); [discriminate|].
  destruct (validation o args); [discriminate|].
  destruct (result o) eqn:Hr; simpl in Hl; try discriminate Hl;
    destruct args as [|tok [|tok2 more]]; split_matches;
    intros E; try discriminate E; injection E as <- _;
    simpl; eexists; reflexivity.
Qed.

Lemma bound_bound (o : arg) (r1 r2 : slot) :
  bound (bound o r1) r2 = bound o r2.
Proof. reflexivity. Qed.

(** X16.  A counter that is not unique adds up over the occurrences: two
    bindings in a row, with counts [n1] and [n2] and no value token, leave
    what one binding with the sum of the counts leaves, in wrapping
    arithmetic. *)
Theorem parse_counter_accumulates
  (o : arg) (v n1 n2 : Z) (w : world) :
  result o = RInt v ->
  size o <= 1 ->
  unique o = false ->
  validation o [] = None ->
  exists o1,
    parse o [] n1 w = Return (None, o1, w) /\
    parse o1 [] n2 w = Return (None, bound o (RInt (wrap (v + (n1 + n2)))), w) /\
    parse o [] (n1 + n2) w =
      Return (None, bound o (RInt (wrap (v + (n1 + n2)))), w).
Proof.
  intros Hr Hs Hu Hv.
  assert (Hsz : (1 <? size o) = false) by (apply Z.ltb_ge; lia).
  assert (Hone : forall n, parse o [] n w =
                           Return (None, bound o (RInt (int_add v n)), w)).
  { intros n. unfold parse, convert, duplicate. rewrite Hu. cbn [andb].
    now rewrite Hv, Hr, Hsz. }
  exists (bound o (RInt (int_add v n1))). split; [apply Hone|]. split.
  - unfold parse, convert, duplicate. cbn [unique bound set_parsed set_result].
    rewrite Hu. cbn [andb].
    change (validation (bound o (RInt (int_add v n1))) [])
      with (validation o []).
    rewrite Hv. cbn [result bound set_parsed set_result size]. rewrite Hsz.
    unfold done, int_add. rewrite wrap_add_wrap.
    replace (v + n1 + n2) with (v + (n1 + n2)) by lia.
    now rewrite bound_bound.
  - rewrite Hone. unfold int_add. reflexivity.
Qed.

Lemma parse_success_marks (o o' : arg) (args : list string) (argCount : Z)
                          (w w' : world) :
  parse o args argCount w = Return (None, o', w') -> parsed o' = true.
Proof.
  unfold parse, convert, fail, done, rollback.
  destruct (duplicate o argCount); [discriminate|].
  destruct (validation o args); [discriminate|].
  destruct (result o); try discriminate;
    destruct args as [|tok [|tok2 more]]; split_matches;
    intros E; try discriminate E; injection E as <- _; reflexivity.
Qed.

(** X17.  A value bound by matching is never overwritten by the default:
    after a successful [parse], [setDefault] on the option it returned, in
    any world, returns no error and changes nothing. *)
Theorem parse_then_setDefault
  (o o' : arg) (args : list string) (argCount : Z) (w w' w2 : world) :
  parse o args argCount w = Return (None, o', w') ->
  setDefault o' w2 = (None, o', w2).
Proof.
  intros H. apply parse_success_marks in H. unfold setDefault.
  now rewrite H.
Qed.

End BinderMore.

(** The color option takes one of its three values and refuses another. *)
Lemma parse_selector_witness :
  parse MoreExamples.color ["never"] 1 (Demo.fresh []) =
    Return (None, bound MoreExamples.color (RString "never"), Demo.fresh []) /\
  parse MoreExamples.color ["blue"] 1 (Demo.fresh []) =
    Return (Some (Errorf "bad value for [%s]. Allowed values are %v"
                         [VString "--color";
                          VStrings ["auto"; "always"; "never"]]),
            MoreExamples.color, Demo.fresh []).
Proof.
  split.
  - apply (proj1 (parse_selector (P := Demo.platform) MoreExamples.color
                    "auto" "never" ["auto"; "always"; "never"] 1 (Demo.fresh [])
                    eq_refl eq_refl eq_refl eq_refl)).
    simpl. tauto.
  - apply (proj2 (parse_selector (P := Demo.platform) MoreExamples.color
                    "auto" "blue" ["auto"; "always"; "never"] 1 (Demo.fresh [])
                    eq_refl eq_refl eq_refl eq_refl)).
    simpl. intros [H|[H|[H|H]]]; try discriminate H. exact H.
Defined.

(** Two values for the option [number]. *)
Lemma parse_wrong_token_count_witness :
  exists e,
    parse Examples.number ["1"; "2"] 1 (Demo.fresh []) =
      Return (Some e, Examples.number, Demo.fresh []).
Proof.
  apply (parse_wrong_token_count (P := Demo.platform)
           Examples.number ["1"; "2"] 1 (Demo.fresh []));
    [reflexivity | simpl; lia | intros n _ H; discriminate H
    | reflexivity | reflexivity].
Defined.

(** Binding 7 to the option [number]. *)
Lemma parse_invariants_witness :
  same_identity Examples.number (bound Examples.number (RInt 7)) /\
  same_kind (result Examples.number)
            (result (bound Examples.number (RInt 7))) = true /\
  (holds_files (result Examples.number) = false ->
   Demo.fresh [] = Demo.fresh []).
Proof.
  apply (parse_invariants (P := Demo.platform)
           Examples.number (bound Examples.number (RInt 7)) ["7"] 1
           (Demo.fresh []) (Demo.fresh []) None).
  reflexivity.
Defined.

(** A value that is no numeral leaves the slot of [number] at 0. *)
Lemma parse_failure_keeps_slot_witness :
  result Examples.number = result Examples.number \/
  (exists held,
      result Examples.number = RFileList held /\
      result Examples.number = RFileList []).
Proof.
  apply (parse_failure_keeps_slot (P := Demo.platform)
           Examples.number Examples.number ["x"] 1
           (Demo.fresh []) (Demo.fresh [])
           (Errorf "[%s] bad interger value [%s]"
                   [VString "-n|--number"; VString "x"])).
  reflexivity.
Defined.

(** A second path goes behind the first. *)
Lemma parse_list_appends_witness :
  parse MoreExamples.include ["src"] 1 (Demo.fresh []) =
    Return (None, bound MoreExamples.include (RStringList ["lib"; "src"]),
            Demo.fresh []) /\
  extended_by_one (result MoreExamples.include)
    (result (bound MoreExamples.include (RStringList ["lib"; "src"]))).
Proof.
  split; [reflexivity|].
  apply (parse_list_appends (P := Demo.platform)
           MoreExamples.include
           (bound MoreExamples.include (RStringList ["lib"; "src"]))
           ["src"] 1 (Demo.fresh []) (Demo.fresh []));
    reflexivity.
Defined.

(** The counter at 4 met twice and then three times is at 9. *)
Lemma parse_counter_accumulates_witness :
  exists o1,
    parse Examples.verbosity [] 2 (Demo.fresh []) =
      Return (None, o1, Demo.fresh []) /\
    parse o1 [] 3 (Demo.fresh []) =
      Return (None, bound Examples.verbosity (RInt (wrap (4 + (2 + 3)))),
              Demo.fresh []) /\
    parse Examples.verbosity [] (2 + 3) (Demo.fresh []) =
      Return (None, bound Examples.verbosity (RInt (wrap (4 + (2 + 3)))),
              Demo.fresh []).
Proof.
  apply (parse_counter_accumulates (P := Demo.platform)
           Examples.verbosity 4 2 3 (Demo.fresh []));
    [reflexivity | simpl; lia | reflexivity | reflexivity].
Defined.

(** The level given on the command line stands; the default 3 is not
    applied. *)
Lemma parse_then_setDefault_witness :
  setDefault (bound MoreExamples.level (RInt 5)) (Demo.fresh []) =
    (None, bound MoreExamples.level (RInt 5), Demo.fresh []).
Proof.
  apply (parse_then_setDefault (P := Demo.platform)
           MoreExamples.level (bound MoreExamples.level (RInt 5))
           ["5"] 1 (Demo.fresh []) (Demo.fresh []) (Demo.fresh [])).
  reflexivity.
Defined.

(** ** Default applier *)

Section DefaultsMore.

Context {P : Platform}.

(** The loop of the file-list default against the names opened in order:
    it succeeds with the files of all the names behind the ones it had, or
    fails as soon as a name does not open. *)
Lemma open_defaults_in_order (o : arg) (held : list File) :
  forall (fileNames : list string) (files : list File) (w : world),
    match opens_in_order o fileNames w with
    | Some (fs, w') =>
        open_defaults o held fileNames files w = inr ((files ++ fs)%list, w')
    | None => exists err w', open_defaults o held fileNames files w = inl (err, w')
    end.
Proof.
  induction fileNames as [|v rest IH]; intros files w; simpl.
  - now rewrite app_nil_r.
  - destruct (OpenFile v (fileFlag o) (filePerm o) w) as [[f|msg] w1].
    + specialize (IH (files ++ [f])%list w1).
      destruct (opens_in_order o rest w1) as [[fs w2]|].
      * rewrite IH. now rewrite <- app_assoc.
      * exact IH.
    + destruct (rollback held msg w1) as [err w2] eqn:E.
      exists err, w2. reflexivity.
Qed.

Lemma opens_in_order_length (o : arg) :
  forall (fileNames : list string) (w w' : world) (fs : list File),
    opens_in_order o fileNames w = Some (fs, w') ->
    List.length fs = List.length fileNames.
Proof.
  induction fileNames as [|v rest IH]; intros w w' fs H; simpl in H.
  - injection H as <- _. reflexivity.
  - destruct (OpenFile v (fileFlag o) (filePerm o) w) as [[f|msg] w1];
      [|discriminate H].
    destruct (opens_in_order o rest w1) as [[fs1 w2]|] eqn:E; [|discriminate H].
    injection H as <- _. simpl. f_equal. eapply IH. exact E.
Qed.

(** X18.  Whatever [setDefault] returns, the matched flag, the names,
    size, options and other identity fields are those of the option it was
    given and the slot has the same type; and unless the slot is a file or
    a list of files the world is the one it was given.  A default does not
    count as a match. *)
Theorem setDefault_invariants
  (o o' : arg) (w w' : world) (err : option error) :
  setDefault o w = (err, o', w') ->
  parsed o' = parsed o /\
  same_identity o o' /\
  same_kind (result o) (result o') = true /\
  (holds_files (result o) = false -> w' = w).
Proof.
  unfold setDefault.
  assert (Hsame : (err, o', w') = (err, o', w') -> True) by trivial.
  assert (Hnop : (None, o, w) = (err, o', w') ->
                 parsed o' = parsed o /\ same_identity o o' /\
                 same_kind (result o) (result o') = true /\
                 (holds_files (result o) = false -> w' = w)).
  { intros E. injection E as _ <- <-.
    auto using same_identity_refl, same_kind_refl. }
  destruct (parsed o) eqn:Hp; [exact Hnop|].
  destruct (opts o) as [op|] eqn:Ho; [|exact Hnop].
  destruct (Default op) as [d|] eqn:Hd; [|exact Hnop].
  clear Hnop Hsame. unfold apply_default, mismatch.
  destruct (result o) eqn:Hr; destruct d; split_matches;
    intros E; injection E as _ <- <-;
    (split; [simpl; congruence
            | split; [unfold same_identity; simpl; repeat split; congruence
                     | split; [rewrite ?Hr; simpl; trivial;
                               try apply String.eqb_refl
                              | simpl; intros; trivial; try discriminate]]]).
Qed.

(** X19.  For an unmatched option whose default has the type of the slot,
    the slot being no file and no list of files: [setDefault] returns no
    error, the slot then holds the value of the default, the world is
    untouched, and applying the default once more changes nothing. *)
Theorem setDefault_applies_value
  (o : arg) (op : Options) (d : default_value) (w : world) :
  parsed o = false -> opts o = Some op -> Default op = Some d ->
  fits (result o) d = true -> holds_files (result o) = false ->
  exists o',
    setDefault o w = (None, o', w) /\
    holds_default (result o') d /\
    setDefault o' w = (None, o', w).
Proof.
  intros Hp Ho Hd Hf Hn. unfold setDefault, apply_default.
  rewrite Hp, Ho, Hd.
  destruct (result o) eqn:Hr; simpl in Hn; try discriminate Hn;
    destruct d; simpl in Hf; try discriminate Hf;
    (eexists; split; [reflexivity|]; split; [reflexivity|]);
    cbn [parsed opts result set_result]; rewrite Hp, Ho, Hd; reflexivity.
Qed.

(** X20.  For an unmatched list of files whose default is a list of names:
    when every name opens, one after the other, [setDefault] returns no
    error and the slot holds the opened files, one for each name, in the
    order of the names, in place of the list it held; when some name does
    not open, it returns an error and the slot holds the empty list. *)
Theorem setDefault_file_list
  (o : arg) (op : Options) (held : list File) (fileNames : list string)
  (w : world) :
  parsed o = false -> opts o = Some op ->
  Default op = Some (DStrings fileNames) ->
  result o = RFileList held ->
  match opens_in_order o fileNames w with
  | Some (fs, w') =>
      setDefault o w = (None, set_result o (RFileList fs), w') /\
      List.length fs = List.length fileNames
  | None =>
      exists e w', setDefault o w = (Some e, set_result o (RFileList []), w')
  end.
Proof.
  intros Hp Ho Hd Hr. unfold setDefault, apply_default.
  rewrite Hp, Ho, Hd, Hr.
  pose proof (open_defaults_in_order o held fileNames [] w) as H.
  destruct (opens_in_order o fileNames w) as [[fs w']|] eqn:E.
  - rewrite H. split; [reflexivity|].
    eapply opens_in_order_length. exact E.
  - destruct H as [err [w' H]]. rewrite H. now exists err, w'.
Qed.

End DefaultsMore.

(** The default 3 reaches the slot of [level] and leaves it matched or not
    as it was. *)
Lemma setDefault_invariants_witness :
  parsed (set_result MoreExamples.level (RInt 3)) = parsed MoreExamples.level /\
  same_identity MoreExamples.level (set_result MoreExamples.level (RInt 3)) /\
  same_kind (result MoreExamples.level)
            (result (set_result MoreExamples.level (RInt 3))) = true /\
  (holds_files (result MoreExamples.level) = false ->
   Demo.fresh [] = Demo.fresh []).
Proof.
  apply (setDefault_invariants (P := Demo.platform)
           MoreExamples.level (set_result MoreExamples.level (RInt 3))
           (Demo.fresh []) (Demo.fresh []) None).
  reflexivity.
Defined.

(** The default 3 of [level], applied once or twice. *)
Lemma setDefault_applies_value_witness :
  exists o',
    setDefault MoreExamples.level (Demo.fresh []) = (None, o', Demo.fresh []) /\
    holds_default (result o') (DInt 3) /\
    setDefault o' (Demo.fresh []) = (None, o', Demo.fresh []).
Proof.
  apply (setDefault_applies_value (P := Demo.platform)
           MoreExamples.level
           (Demo.options_of false None (Some (DInt 3))) (DInt 3)
           (Demo.fresh []));
    reflexivity.
Defined.

(** Both names of the default open: the slot holds descriptors 0 and 1. *)
Lemma setDefault_file_list_witness :
  setDefault MoreExamples.sources (Demo.fresh ["a"; "b"]) =
    (None,
     set_result MoreExamples.sources (@RFileList Demo.platform [0%nat; 1%nat]),
     {| Demo.present := ["a"; "b"]; Demo.opened := [0%nat; 1%nat];
        Demo.next_fd := 2 |}) /\
  List.length [0%nat; 1%nat] = List.length ["a"; "b"].
Proof.
  apply (setDefault_file_list (P := Demo.platform)
           MoreExamples.sources
           (Demo.options_of false None (Some (DStrings ["a"; "b"])))
           [] ["a"; "b"] (Demo.fresh ["a"; "b"])
           eq_refl eq_refl eq_refl eq_refl).
Defined.

(** ** Presenter *)

Section PresenterMore.

Context {P : Platform}.

(** X21.  Whether an option is required changes nothing in its usage
    fragment but the brackets: the usage of an option that is not required
    is the usage of the same option declared required, between brackets,
    and a required option has none, whatever the type of the slot. *)
Theorem usage_brackets (o : arg) :
  usage o =
    if is_required o then usage (as_required o)
    else "[" ++ usage (as_required o) ++ "]".
Proof.
  unfold usage, is_required, as_required.
  change (name (set_opts o (Some (required_options (opts o)))))
    with (name o).
  cbn [result opts set_opts selector].
  destruct (opts o) as [op|]; cbn [required_options Required];
    [destruct (Required op)|]; reflexivity.
Qed.

End PresenterMore.

(** ** Help message *)

Lemma HasPrefix_self (s : string) : HasPrefix s s = true.
Proof.
  induction s as [|a s IH]; [reflexivity|].
  cbn [HasPrefix]. now rewrite Ascii.eqb_refl, IH.
Qed.

Section HelpMessageMore.

Context {P : Platform}.

Variable Sprint : default_value -> string.

(** X22.  [getHelpMessage] panics exactly on an option without options.
    When it returns, the message starts with the help text; it is empty
    exactly when the help text is empty, so that a default with no help
    text is not shown; and for a required option, or an option without a
    default, the message is the help text alone. *)
Theorem getHelpMessage_shape (o : arg) :
  (getHelpMessage Sprint o = Panic <-> opts o = None) /\
  forall m, getHelpMessage Sprint o = Return m ->
    exists op,
      opts o = Some op /\
      HasPrefix m (Help op) = true /\
      (m = "" <-> Help op = "") /\
      (Required op = true \/ Default op = None -> m = Help op).
Proof.
  unfold getHelpMessage. destruct (opts o) as [op|].
  - split.
    + split; [|discriminate].
      destruct (0 <? String.length (Help op))%nat;
        [destruct (negb (Required op)), (Default op)|]; discriminate.
    + intros m H. exists op. split; [reflexivity|].
      destruct (Help op) as [|c tl] eqn:Hh.
      { cbn [String.length Nat.ltb Nat.leb] in H. injection H as <-.
        repeat split; trivial. }
      cbn [String.length Nat.ltb Nat.leb] in H.
      destruct (Required op) eqn:Hq; cbn [negb] in H.
      { assert (E : m = String c tl)
          by (destruct (Default op); now injection H as <-).
        subst m. rewrite HasPrefix_self.
        repeat split; trivial; discriminate. }
      destruct (Default op) as [d|] eqn:Hd; injection H as <-.
      * split; [exact (HasPrefix_app (String c tl) _)|].
        repeat split; try discriminate.
        intros [E|E]; discriminate E.
      * rewrite HasPrefix_self. repeat split; trivial; discriminate.
  - split; [split; reflexivity|]. discriminate.
Qed.

End HelpMessageMore.

(** The option [number], bare when required and bracketed when not. *)
Lemma usage_brackets_examples :
  usage Examples.number_optional =
    "[" ++ usage (as_required Examples.number_optional) ++ "]" /\
  usage Examples.number_required = usage (as_required Examples.number_required).
Proof.
  split.
  - exact (usage_brackets (P := Demo.platform) Examples.number_optional).
  - exact (usage_brackets (P := Demo.platform) Examples.number_required).
Defined.

(** A documented option shows its default; without options the call
    panics. *)
Lemma getHelpMessage_examples :
  getHelpMessage MoreExamples.sprint MoreExamples.documented =
    Return "verbosity level. Default: 3" /\
  getHelpMessage MoreExamples.sprint Examples.number = Panic.
Proof.
  split; [reflexivity|].
  apply (proj1 (getHelpMessage_shape (P := Demo.platform)
                  MoreExamples.sprint Examples.number)).
  reflexivity.
Defined.
